(** * Ticker sentiment monitor: mention resolution and sentiment aggregation

    A shallow embedding of [src/main.py] (class [TickerSentimentMonitor]) and
    the properties its specification states about it.

    Modelling conventions.
    - Python [str] is [string], one [ascii] per character. On texts of ASCII
      characters (every character below 128) the case maps [Str.lower] and
      [Str.upper] and the slice [Str.slice_to] are [str.lower], [str.upper]
      and [s[:n]]; outside ASCII Python's case maps are not character by
      character. A statement that takes the case maps and the slice as given
      functions does not depend on this; a statement that uses how they act
      on characters has the hypothesis that its texts are ASCII. [a in b] on
      strings is [Str.contains a b].
    - Python [float] scores are exact rationals ([Q]); every decision the
      program takes on a score is a strict comparison with a constant, which
      is written here with [Qltb].
    - [dict] is [gmap], [set] is [gset]; a list stays a [list].
    - [try / except Exception] is [try_except] over the [result] type.
    - The HTML text itself is not modelled: [generate_html_report] returns the
      values that are interpolated into it. *)

From Stdlib Require Import Ascii String QArith Qabs Lqa.
From stdpp Require Import gmap strings list fin_maps sorting.

Open Scope string_scope.

(* stdpp's solvers may clear a hypothesis twice. *)
#[local] Set Warnings "-clear-no-such-hyp".

(** ** Strings *)

Module Str.

Definition is_upper (c : ascii) : bool :=
  let n := N_of_ascii c in ((65 <=? n) && (n <=? 90))%N.

Definition is_lower (c : ascii) : bool :=
  let n := N_of_ascii c in ((97 <=? n) && (n <=? 122))%N.

Definition lower_ascii (c : ascii) : ascii :=
  if is_upper c then ascii_of_N (N_of_ascii c + 32) else c.

Definition upper_ascii (c : ascii) : ascii :=
  if is_lower c then ascii_of_N (N_of_ascii c - 32) else c.

Fixpoint map_string (f : ascii → ascii) (s : string) : string :=
  match s with
  | EmptyString => EmptyString
  | String c s' => String (f c) (map_string f s')
  end.

(** [s.lower()] and [s.upper()]. *)
Definition lower : string → string := map_string lower_ascii.
Definition upper : string → string := map_string upper_ascii.

(** [needle in hay]: some suffix of [hay] starts with [needle]. *)
Fixpoint contains (needle hay : string) : bool :=
  if String.prefix needle hay then true
  else match hay with
       | EmptyString => false
       | String _ hay' => contains needle hay'
       end.

(** [s[:n]]. *)
Definition slice_to (n : nat) (s : string) : string := String.substring 0 n s.

End Str.

(** ** Exceptions *)

Inductive result (A : Type) : Type :=
| Ok (a : A)
| Raise (e : string).
Arguments Ok {A} a.
Arguments Raise {A} e.

Definition bind {A B : Type} (r : result A) (k : A → result B) : result B :=
  match r with
  | Ok a => k a
  | Raise e => Raise e
  end.

(** [try: body  except Exception as e: handler e]. *)
Definition try_except {A : Type} (body : result A) (handler : string → result A)
  : result A :=
  match body with
  | Ok a => Ok a
  | Raise e => handler e
  end.

Infix ">>=" := bind (at level 58, left associativity).

(** ** Configuration: the mappings file and the constructor *)

(** One value of the JSON object in [ticker_mappings.json]; ['aliases'] may be
    missing. *)
Record mapping_info := { aliases : option (list string) }.

(** What [open] + [json.load] does on the mappings file. *)
Inductive mappings_file :=
| FileNotFoundError
| JSONDecodeError (e : string)
| Loaded (data : gmap string mapping_info).

Record Monitor := {
  watch_tickers : list string;
  ticker_to_names : gmap string (list string)
}.

(** [load_ticker_mappings] (lines 52-67); [watch] is [self.watch_tickers]. *)
Definition load_ticker_mappings (watch : list string) (file : mappings_file)
  : gmap string (list string) :=
  match file with
  | Loaded data =>
      map_imap (λ ticker info, Some (default [ticker] (aliases info))) data
  | FileNotFoundError | JSONDecodeError _ =>
      list_to_map ((λ ticker, (ticker, [ticker])) <$> watch)
  end.

(** [__init__] (lines 23-32): the watch-list is upper-cased, the mappings are
    loaded and then restricted to the watch-list. *)
Definition init (watch_tickers0 : list string) (file : mappings_file) : Monitor :=
  let watch := Str.upper <$> watch_tickers0 in
  let names := load_ticker_mappings watch file in
  {| watch_tickers := watch;
     ticker_to_names := filter (λ kv, kv.1 ∈ watch) names |}.

(** ** Mention resolution *)

Record mention_filter := {
  exclude_phrases : list string;
  require_context : list string
}.

(** The table inside [_validate_mention] (lines 77-90). *)
Definition false_positive_filters : gmap string mention_filter :=
  {[ "OPEN" := {| exclude_phrases := ["openai"; "open ai"; "open-ai"; "open source"];
                  require_context := ["opendoor"; "real estate"; "housing"] |};
     "MSTR" := {| exclude_phrases := ["armstrong"; "arm strong"];
                  require_context := ["microstrategy"; "bitcoin"; "saylor"] |};
     "FIG" := {| exclude_phrases := ["figure"; "figures"];
                 require_context := [] |} ]}.

(** The loop of lines 96-98: [false] as soon as one phrase occurs. *)
Fixpoint no_exclusion (text_lower : string) (phrases : list string) : bool :=
  match phrases with
  | [] => true
  | exclude :: rest =>
      if Str.contains exclude text_lower then false
      else no_exclusion text_lower rest
  end.

(** [_validate_mention] (lines 69-99). *)
Definition _validate_mention (text name ticker : string) : bool :=
  let text_lower := Str.lower text in
  match false_positive_filters !! ticker with
  | Some filters => no_exclusion text_lower (exclude_phrases filters)
  | None => true
  end.

(** The inner loop of [extract_tickers] (lines 116-123); the [break] is the
    branch that does not recurse. *)
Fixpoint alias_loop (text text_lower ticker : string) (names : list string)
    (found_tickers : gset string) : gset string :=
  match names with
  | [] => found_tickers
  | name :: rest =>
      let name_lower := Str.lower name in
      if Str.contains name_lower text_lower then
        if _validate_mention text name ticker then {[ ticker ]} ∪ found_tickers
        else alias_loop text text_lower ticker rest found_tickers
      else alias_loop text text_lower ticker rest found_tickers
  end.

(** One iteration of the outer loop (lines 109-123). *)
Definition extract_step (m : Monitor) (text text_upper text_lower : string)
    (found_tickers : gset string) (ticker : string) : gset string :=
  match ticker_to_names m !! ticker with
  | None =>
      if Str.contains ticker text_upper then {[ ticker ]} ∪ found_tickers
      else found_tickers
  | Some names => alias_loop text text_lower ticker names found_tickers
  end.

(** What one iteration of the outer loop decides for its own ticker, started
    from the empty set. *)
Definition mentioned (m : Monitor) (text ticker : string) : Prop :=
  ticker ∈ extract_step m text (Str.upper text) (Str.lower text) ∅ ticker.

(** [extract_tickers] (lines 101-125). *)
Definition extract_tickers (m : Monitor) (text : string) : gset string :=
  let text_upper := Str.upper text in
  let text_lower := Str.lower text in
  foldl (extract_step m text text_upper text_lower) ∅ (watch_tickers m).

(** ** Sentiment of one text *)

(** [x < y] on scores, as a boolean. *)
Definition Qltb (x y : Q) : bool := negb (Qle_bool y x).

(** The threshold chain of lines 138-147. *)
Definition sentiment_of_score (score : Q) : string :=
  if Qltb 0.5 score then "VERY BULLISH"
  else if Qltb 0.1 score then "Bullish"
  else if Qltb score (-0.5) then "VERY BEARISH"
  else if Qltb score (-0.1) then "Bearish"
  else "Neutral".

(** The scorer collaborator: tokenizer, model and softmax of lines 130-135,
    giving [(positive_prob, negative_prob)] or raising. *)
Definition Scorer := string → result (Q * Q).

(** [analyse_sentiment] (lines 127-152). *)
Definition analyse_sentiment (scorer : Scorer) (text : string) : result (string * Q) :=
  try_except
    (let text := Str.slice_to 512 text in
     scorer text >>= λ '(positive_prob, negative_prob),
     let score := (positive_prob - negative_prob)%Q in
     Ok (sentiment_of_score score, score))
    (λ _, Ok ("Neutral", 0%Q)).

(** ** Fetching and categorising articles *)

(** A feed entry; a missing key is [None] ([entry.get(key, default)]). *)
Record entry := {
  e_title : option string;
  e_summary : option string;
  e_description : option string;
  e_link : option string;
  e_published : option string
}.

Record feed := {
  feed_title : option string;
  entries : list entry
}.

(** The article dictionary of lines 198-207. *)
Record article := {
  title : string;
  link : string;
  published : string;
  summary : string;
  source : string;
  sentiment : string;
  score : Q;
  tickers : list string
}.

(** [all_articles] and [ticker_articles]. *)
Record fetch_state := {
  all_articles : list article;
  ticker_articles : gmap string (list article)
}.

(** Lines 174-175: [all_articles = []] and
    [ticker_articles = defaultdict(list)]. *)
Definition empty_state : fetch_state :=
  {| all_articles := []; ticker_articles := ∅ |}.

(** [f"{title} {summary}"] (line 192). *)
Definition combined_text (e : entry) : string :=
  default "" (e_title e) +:+ " " +:+
  default (default "" (e_description e)) (e_summary e).

(** [ticker_articles[ticker].append(article)] on a [defaultdict(list)]. *)
Definition append_for (a : article) (ta : gmap string (list article))
    (ticker : string) : gmap string (list article) :=
  <[ ticker := (default [] (ta !! ticker) ++ [a])%list ]> ta.

(** Lines 209-213. *)
Definition add_article (st : fetch_state) (a : article)
    (mentioned_tickers : gset string) : fetch_state :=
  {| all_articles := (all_articles st ++ [a])%list;
     ticker_articles :=
       foldl (append_for a) (ticker_articles st) (elements mentioned_tickers) |}.

(** The dictionary built on lines 198-207. *)
Definition make_article (m : Monitor) (source_name : string) (e : entry)
    (sentiment : string) (score : Q) : article :=
  {| title := default "" (e_title e);
     link := default "" (e_link e);
     published := default "" (e_published e);
     summary := default (default "" (e_description e)) (e_summary e);
     source := source_name;
     sentiment := sentiment;
     score := score;
     tickers := elements (extract_tickers m (combined_text e)) |}.

(** The loop over [feed.entries[:10]] (lines 186-215). An exception leaves
    the loop with the state as it is at that point. *)
Fixpoint entries_loop (m : Monitor) (scorer : Scorer) (source_name : string)
    (es : list entry) (st : fetch_state) : fetch_state * result unit :=
  match es with
  | [] => (st, Ok tt)
  | e :: rest =>
      let mentioned_tickers := extract_tickers m (combined_text e) in
      match analyse_sentiment scorer (combined_text e) with
      | Raise x => (st, Raise x)
      | Ok (sentiment, score) =>
          let a := make_article m source_name e sentiment score in
          entries_loop m scorer source_name rest
            (add_article st a mentioned_tickers)
      end
  end.

(** The body of the loop over [self.rss_feeds] (lines 180-220): [parsed] is
    what [feedparser.parse(feed_url)] gives; whatever is raised is printed
    and dropped. *)
Definition feed_step (m : Monitor) (scorer : Scorer) (st : fetch_state)
    (f : string * result feed) : fetch_state :=
  let '(feed_url, parsed) := f in
  match parsed with
  | Raise _ => st
  | Ok fd =>
      let source_name := default feed_url (feed_title fd) in
      fst (entries_loop m scorer source_name (take 10 (entries fd)) st)
  end.

(** [fetch_and_analyse_articles] (lines 154-228); [dict(ticker_articles)]
    keeps exactly the keys the [defaultdict] has. *)
Definition fetch_and_analyse_articles (m : Monitor) (scorer : Scorer)
    (rss_feeds : list (string * result feed))
  : list article * gmap string (list article) :=
  let st := foldl (feed_step m scorer) empty_state rss_feeds in
  (all_articles st, ticker_articles st).

(** ** The report *)

(** [sum(a['score'] for a in articles)]: from 0, left to right. *)
Definition sum_scores (articles : list article) : Q :=
  foldl Qplus 0%Q (score <$> articles).

(** [sum(a['score'] for a in articles) / len(articles)]. *)
Definition mean_score (articles : list article) : Q :=
  (sum_scores articles / inject_Z (Z.of_nat (length articles)))%Q.

(** Lines 237-251: label and colour of the overall mean. *)
Definition overall_sentiment (avg_score : Q) : string * string :=
  if Qltb 0.3 avg_score then ("🟢 BULLISH", "#28a745")
  else if Qltb 0 avg_score then ("🟢 Slightly Bullish", "#90EE90")
  else if Qltb avg_score (-0.3) then ("🔴 BEARISH", "#dc3545")
  else if Qltb avg_score 0 then ("🔴 Slightly Bearish", "#FFA07A")
  else ("⚪ Neutral", "#6c757d").

(** Lines 392-406: label and colour of a ticker's mean. *)
Definition ticker_sentiment_of (ticker_avg : Q) : string * string :=
  if Qltb 0.3 ticker_avg then ("🟢 BULLISH", "#28a745")
  else if Qltb 0 ticker_avg then ("🟢 Slightly Bullish", "#90EE90")
  else if Qltb ticker_avg (-0.3) then ("🔴 BEARISH", "#dc3545")
  else if Qltb ticker_avg 0 then ("🔴 Slightly Bearish", "#FFA07A")
  else ("⚪ Neutral", "#6c757d").

(** Lines 426-435: badge of one headline. *)
Definition badge_class_of (score : Q) : string :=
  if Qltb 0.5 score then "very-bullish"
  else if Qltb 0.1 score then "bullish"
  else if Qltb score (-0.5) then "very-bearish"
  else if Qltb score (-0.1) then "bearish"
  else "neutral".

(** [sorted(xs, key=key, reverse=True)]: Python's sort is stable, also with
    [reverse=True]; it is modelled by the stable insertion sort. An element
    is inserted behind exactly those with a strictly larger key. *)
Section Sorted.
Context {A : Type} (key : A → Q).

Fixpoint insert_desc (x : A) (l : list A) : list A :=
  match l with
  | [] => [x]
  | y :: l' =>
      if Qltb (key x) (key y) then y :: insert_desc x l'
      else x :: y :: l'
  end.

Definition sorted_desc (l : list A) : list A := foldr insert_desc [] l.
End Sorted.

(** [lambda x: abs(x['score'])] (line 422). *)
Definition abs_score (a : article) : Q := Qabs (score a).

(** [sorted_articles[:5]] (lines 422-424). *)
Definition top_articles (articles : list article) : list article :=
  take 5 (sorted_desc abs_score articles).

(** What one iteration of the loop over the watch-list renders. *)
Inductive ticker_block :=
| TickerSummary (ticker_name ticker_sentiment ticker_color : string)
    (count : nat) (ticker_avg : Q) (headlines : list (string * article))
| NoArticles (ticker_name : string).

Record report := {
  overall : string;
  color : string;
  n_articles : nat;
  avg_score : Q;
  sections : list ticker_block
}.

(** Lines 380-460 for one ticker; [articles] is
    [ticker_articles.get(ticker, [])]. *)
Definition ticker_section (ticker_articles : gmap string (list article))
    (ticker : string) : ticker_block :=
  let articles := default [] (ticker_articles !! ticker) in
  let ticker_name := ticker in
  match articles with
  | _ :: _ =>
      let ticker_avg := mean_score articles in
      let '(ticker_sentiment, ticker_color) := ticker_sentiment_of ticker_avg in
      TickerSummary ticker_name ticker_sentiment ticker_color (length articles)
        ticker_avg
        ((λ a, (badge_class_of (score a), a)) <$> top_articles articles)
  | [] => NoArticles ticker_name
  end.

(** [generate_html_report] (lines 230-467). *)
Definition generate_html_report (m : Monitor) (all_articles : list article)
    (ticker_articles : gmap string (list article)) : report :=
  let '(avg_score, (overall, color)) :=
    match all_articles with
    | _ :: _ =>
        let avg_score := mean_score all_articles in
        (avg_score, overall_sentiment avg_score)
    | [] => (0%Q, ("No Data", "#6c757d"))
    end in
  {| overall := overall;
     color := color;
     n_articles := length all_articles;
     avg_score := avg_score;
     sections := ticker_section ticker_articles <$> watch_tickers m |}.

(** [send_email] (lines 469-490): [smtp] is what the SMTP conversation does. *)
Definition send_email (smtp : result unit) : result bool :=
  try_except (smtp >>= λ _, Ok true) (λ _, Ok false).

(** [run_daily_scan] (lines 492-498). Every callee catches what it may
    raise, so the scan has no raising path of its own; the outcome carries the
    report that was rendered and whether it was sent. *)
Definition run_daily_scan (m : Monitor) (scorer : Scorer)
    (rss_feeds : list (string * result feed)) (smtp : result unit)
  : result (report * bool) :=
  let '(all_articles, ticker_articles) :=
    fetch_and_analyse_articles m scorer rss_feeds in
  let html_report := generate_html_report m all_articles ticker_articles in
  send_email smtp >>= λ sent, Ok (html_report, sent).

(** ** The entry point *)

(** [s.split(sep)] for a one-character separator: every occurrence cuts,
    and empty pieces are kept. *)
Fixpoint split_on (sep : ascii) (s : string) : list string :=
  match s with
  | EmptyString => [EmptyString]
  | String c s' =>
      if Ascii.eqb c sep then EmptyString :: split_on sep s'
      else match split_on sep s' with
           | piece :: pieces => String c piece :: pieces
           | [] => [String c EmptyString]
           end
  end.

(** The ASCII characters for which [str.isspace] holds: tab to carriage
    return, the four separators 28 to 31, and the space. *)
Definition is_space (c : ascii) : bool :=
  let n := N_of_ascii c in
  (((9 <=? n) && (n <=? 13)) || ((28 <=? n) && (n <=? 32)))%N.

Fixpoint lstrip (s : string) : string :=
  match s with
  | EmptyString => EmptyString
  | String c s' => if is_space c then lstrip s' else s
  end.

Fixpoint rstrip (s : string) : string :=
  match s with
  | EmptyString => EmptyString
  | String c s' =>
      match rstrip s' with
      | EmptyString => if is_space c then EmptyString else String c EmptyString
      | kept => String c kept
      end
  end.

(** [s.strip()]. *)
Definition strip (s : string) : string := rstrip (lstrip s).

(** Lines 504-505 of [main]: [WATCH_TICKERS] is the environment variable,
    [None] when it is not set. *)
Definition watch_tickers_of_env (WATCH_TICKERS : option string) : list string :=
  let watch_tickers_str := default "" WATCH_TICKERS in
  strip <$> split_on "," watch_tickers_str.

(** ** Stated behaviour, for comparison with the code *)

(** The table the report applies to a mean: the label that goes with each
    range. *)
Definition mean_label (avg : Q) (label : string) : Prop :=
  ((0.3 < avg)%Q → label = "🟢 BULLISH") ∧
  ((0 < avg)%Q ∧ (avg <= 0.3)%Q → label = "🟢 Slightly Bullish") ∧
  ((avg < -0.3)%Q → label = "🔴 BEARISH") ∧
  ((-0.3 <= avg)%Q ∧ (avg < 0)%Q → label = "🔴 Slightly Bearish") ∧
  ((avg == 0)%Q → label = "⚪ Neutral").

(** Invariant of the fetch: a ticker is a key of the mapping exactly when some article mentions it. *)
Definition keys_are_mentions (st : fetch_state) : Prop :=
  ∀ t, is_Some (ticker_articles st !! t) ↔
       ∃ a, a ∈ all_articles st ∧ t ∈ tickers a.

(** Invariant of the fetch: the list kept for a ticker is the list of all
    articles that mention it, in the order they were fetched. *)
Definition per_ticker_is_filter (st : fetch_state) : Prop :=
  ∀ t, default [] (ticker_articles st !! t)
       = filter (λ a, t ∈ tickers a) (all_articles st).

(** The number of articles a feed contributes: its first ten entries, or
    nothing when parsing it raised. *)
Definition feed_quota (f : string * result feed) : nat :=
  match f.2 with
  | Ok fd => 10 `min` length (entries fd)
  | Raise _ => 0
  end.

(** [a] may stand before [b] in a descending order by [key]: its key is not
    smaller. *)
Definition desc {A : Type} (key : A → Q) (a b : A) : Prop := (key b <= key a)%Q.

#[local] Instance Qeq_decision (x y : Q) : Decision (x == y)%Q := Qeq_dec x y.

(** ** A small run, used for the concrete cases below *)

Module Scenario.

(** Watch-list AAPL and TSLA, each with its company name as an alias. *)
Definition monitor : Monitor :=
  init ["AAPL"; "TSLA"]
    (Loaded {[ "AAPL" := {| aliases := Some ["AAPL"; "Apple"] |};
               "TSLA" := {| aliases := Some ["TSLA"; "Tesla"] |} ]}).

(** The same watch-list without mappings file. *)
Definition bare_monitor : Monitor := init ["AAPL"; "TSLA"] FileNotFoundError.

Definition headline (t : string) : entry :=
  {| e_title := Some t; e_summary := Some ""; e_description := None;
     e_link := None; e_published := None |}.

Definition one_feed (titles : list string) : list (string * result feed) :=
  [("https://example.org/rss",
    Ok {| feed_title := Some "Example"; entries := headline <$> titles |})].

(** A scorer that gives 0.4 to texts about Apple, -0.3 to texts about Tesla
    and raises on everything else. *)
Definition scorer : Scorer := λ text,
  if Str.contains "Apple" text then Ok (0.4, 0)%Q
  else if Str.contains "Tesla" text then Ok (0, 0.3)%Q
  else Raise "model error".

(** A scorer that is down. *)
Definition no_scorer : Scorer := λ _, Raise "scorer unavailable".

Definition two_articles : list (string * result feed) :=
  one_feed ["Apple posts record iPhone sales"; "Tesla misses delivery estimates"].

End Scenario.

(** * Properties *)

(** ** Case folding and substring search *)

Module StrFacts.
Import Str.

Lemma lower_upper_ascii c : lower_ascii (upper_ascii c) = lower_ascii c.
Proof. destruct c as [[] [] [] [] [] [] [] []]; reflexivity. Qed.

Lemma upper_lower_ascii c : upper_ascii (lower_ascii c) = upper_ascii c.
Proof. destruct c as [[] [] [] [] [] [] [] []]; reflexivity. Qed.

Lemma upper_ascii_idem c : upper_ascii (upper_ascii c) = upper_ascii c.
Proof. destruct c as [[] [] [] [] [] [] [] []]; reflexivity. Qed.

(** Two characters agree in upper case exactly when they agree in lower
    case. *)
Lemma same_case_class c d :
  upper_ascii c = upper_ascii d ↔ lower_ascii c = lower_ascii d.
Proof.
  split; intros H.
  - rewrite <- (lower_upper_ascii c), <- (lower_upper_ascii d). by rewrite H.
  - rewrite <- (upper_lower_ascii c), <- (upper_lower_ascii d). by rewrite H.
Qed.

Lemma upper_idem s : upper (upper s) = upper s.
Proof.
  induction s as [|c s IH]; simpl; [done|].
  unfold upper in *. simpl. by rewrite upper_ascii_idem, IH.
Qed.

Lemma prefix_fold_case a b :
  String.prefix (upper a) (upper b) = String.prefix (lower a) (lower b).
Proof.
  revert b. induction a as [|c a IH]; intros [|d b]; simpl; try done.
  destruct (ascii_dec (upper_ascii c) (upper_ascii d)) as [Hu|Hu],
           (ascii_dec (lower_ascii c) (lower_ascii d)) as [Hl|Hl].
  - apply IH.
  - by apply same_case_class in Hu.
  - by apply same_case_class in Hl.
  - done.
Qed.

Lemma contains_unfold needle hay :
  contains needle hay =
    if String.prefix needle hay then true
    else match hay with
         | EmptyString => false
         | String _ hay' => contains needle hay'
         end.
Proof. by destruct hay. Qed.

(** Searching in upper case and searching in lower case find the same
    occurrences. *)
Lemma contains_fold_case a b :
  contains (upper a) (upper b) = contains (lower a) (lower b).
Proof.
  induction b as [|d b IH].
  - pose proof (prefix_fold_case a "") as H. simpl in *. by rewrite H.
  - rewrite (contains_unfold (upper a)), (contains_unfold (lower a)).
    rewrite prefix_fold_case. destruct (String.prefix _ _); [done|].
    apply IH.
Qed.

Lemma prefix_empty s : String.prefix "" s = true.
Proof. by destruct s. Qed.

(** [prefix needle hay] holds exactly when [hay] starts with [needle]. *)
Lemma prefix_spec needle hay :
  String.prefix needle hay = true ↔ ∃ after, hay = needle +:+ after.
Proof.
  revert hay. induction needle as [|c needle IH]; intros hay.
  - rewrite prefix_empty. split; [by exists hay | done].
  - destruct hay as [|d hay].
    + split; [done|]. by intros [after [=]].
    + change (String.prefix (String c needle) (String d hay))
        with (if ascii_dec c d then String.prefix needle hay else false).
      destruct (ascii_dec c d) as [->|Hne].
      * rewrite IH. split.
        -- intros [after ->]. by exists after.
        -- intros [after [= ->]]. by exists after.
      * split; [done|]. intros [after [= -> _]]. done.
Qed.

(** [contains needle hay] holds exactly when [needle] occurs in [hay]:
    [hay] is some text, then [needle], then some text. *)
Lemma contains_spec needle hay :
  contains needle hay = true ↔
  ∃ before after, hay = before +:+ needle +:+ after.
Proof.
  induction hay as [|d hay IH]; rewrite contains_unfold.
  - destruct (String.prefix needle "") eqn:Hp.
    + split; [|done]. intros _. apply prefix_spec in Hp as [after ->].
      by exists "", after.
    + split; [done|]. intros (before & after & H). exfalso.
      destruct before as [|b before]; [|done]. simpl in H.
      assert (String.prefix needle "" = true) as Hp'
        by (apply prefix_spec; by exists after).
      congruence.
  - destruct (String.prefix needle (String d hay)) eqn:Hp.
    + split; [|done]. intros _. apply prefix_spec in Hp as [after ->].
      by exists "", after.
    + rewrite IH. split.
      * intros (before & after & ->). by exists (String d before), after.
      * intros (before & after & H). destruct before as [|b before].
        -- exfalso. simpl in H.
           assert (String.prefix needle (String d hay) = true) as Hp'
             by (apply prefix_spec; by exists after).
           congruence.
        -- injection H as -> ->. by exists before, after.
Qed.

End StrFacts.

(** ** Mention resolution *)

Section Mentions.
Variable m : Monitor.
Variable text : string.

Local Abbreviation text_upper := (Str.upper text).
Local Abbreviation text_lower := (Str.lower text).

Lemma no_exclusion_spec (tl : string) (phrases : list string) :
  no_exclusion tl phrases = true ↔
  ∀ p, p ∈ phrases → Str.contains p tl = false.
Proof.
  induction phrases as [|p ps IH]; simpl.
  - split; [intros _ p Hp; inversion Hp | done].
  - destruct (Str.contains p tl) eqn:Hp.
    + split; [done|]. intros H. specialize (H p (list_elem_of_here _ _)).
      congruence.
    + rewrite IH. split.
      * intros H q Hq. apply elem_of_cons in Hq as [->|Hq]; auto.
      * intros H q Hq. apply H. by apply list_elem_of_further.
Qed.

(** A mention is valid exactly when no exclusion phrase of the ticker's own
    rule occurs in the lower-cased text; neither the alias nor
    [require_context] plays a part. *)
Lemma validate_mention_spec (name ticker : string) :
  _validate_mention text name ticker = true ↔
  ∀ rule, false_positive_filters !! ticker = Some rule →
    ∀ p, p ∈ exclude_phrases rule → Str.contains p (Str.lower text) = false.
Proof.
  unfold _validate_mention.
  destruct (false_positive_filters !! ticker) as [rule|] eqn:Hr.
  - rewrite no_exclusion_spec. split.
    + intros H rule' [= <-]. exact H.
    + intros H. by apply H.
  - split; [intros _ rule' [=] | done].
Qed.

Lemma elem_of_alias_loop (ticker : string) (names : list string)
    (found : gset string) (x : string) :
  x ∈ alias_loop text text_lower ticker names found ↔
  x ∈ found ∨
  (x = ticker ∧ ∃ name, name ∈ names ∧
     Str.contains (Str.lower name) text_lower = true ∧
     _validate_mention text name ticker = true).
Proof.
  induction names as [|n ns IH]; simpl.
  - split; [by left|]. intros [H|(_ & n & Hn & _)]; [done | inversion Hn].
  - destruct (Str.contains (Str.lower n) text_lower) eqn:Hc;
      [destruct (_validate_mention text n ticker) eqn:Hv|].
    + rewrite elem_of_union, elem_of_singleton. split.
      * intros [->|H]; [right|by left].
        split; [done|]. exists n. split; [apply list_elem_of_here | done].
      * intros [H|[-> _]]; [by right | by left].
    + rewrite IH. split; (intros [H|(-> & n' & Hn' & Hc' & Hv')]; [by left|right]).
      * split; [done|]. exists n'. split; [by apply list_elem_of_further | done].
      * split; [done|]. exists n'. apply elem_of_cons in Hn' as [->|Hn'];
          [congruence | done].
    + rewrite IH. split; (intros [H|(-> & n' & Hn' & Hc' & Hv')]; [by left|right]).
      * split; [done|]. exists n'. split; [by apply list_elem_of_further | done].
      * split; [done|]. exists n'. apply elem_of_cons in Hn' as [->|Hn'];
          [congruence | done].
Qed.

Lemma elem_of_extract_step (found : gset string) (ticker x : string) :
  x ∈ extract_step m text text_upper text_lower found ticker ↔
  x ∈ found ∨ (x = ticker ∧ mentioned m text ticker).
Proof.
  unfold mentioned, extract_step.
  destruct (ticker_to_names m !! ticker) as [names|].
  - rewrite !elem_of_alias_loop.
    pose proof (not_elem_of_empty (C:=gset string) ticker). intuition.
  - destruct (Str.contains ticker text_upper).
    + rewrite !elem_of_union, !elem_of_singleton. split.
      * intros [->|H]; [right | by left]. split; [done | by left].
      * intros [H|[-> _]]; [by right | by left].
    + split; [by left|]. intros [H|[_ H]]; [done|].
      by apply not_elem_of_empty in H.
Qed.

Lemma elem_of_extract_fold (l : list string) (found : gset string) (x : string) :
  x ∈ foldl (extract_step m text text_upper text_lower) found l ↔
  x ∈ found ∨ (x ∈ l ∧ mentioned m text x).
Proof.
  revert found. induction l as [|t l IH]; intros found; simpl.
  - split; [by left|]. intros [H|[H _]]; [done | inversion H].
  - rewrite IH, elem_of_extract_step, elem_of_cons. split.
    + intros [[H|[-> H]]|[H1 H2]];
        [by left | right; split; [by left | done] | right; split; [by right | done]].
    + intros [H|[[->|H1] H2]]; [left; by left | left; by right | by right].
Qed.

(** A ticker is extracted exactly when it is on the watch-list and its own
    iteration reports it. *)
Lemma elem_of_extract_tickers (x : string) :
  x ∈ extract_tickers m text ↔ x ∈ watch_tickers m ∧ mentioned m text x.
Proof.
  unfold extract_tickers.
  rewrite elem_of_extract_fold. set_solver.
Qed.

Lemma mentioned_fallback (ticker : string) :
  ticker_to_names m !! ticker = None →
  (mentioned m text ticker ↔ Str.contains ticker (Str.upper text) = true).
Proof.
  intros Hn. unfold mentioned, extract_step. rewrite Hn.
  destruct (Str.contains ticker text_upper); [|set_solver].
  split; [done|]. intros _. apply elem_of_union_l. by apply elem_of_singleton.
Qed.

Lemma mentioned_aliases (ticker : string) (names : list string) :
  ticker_to_names m !! ticker = Some names →
  (mentioned m text ticker ↔
   ∃ name, name ∈ names ∧
     Str.contains (Str.lower name) (Str.lower text) = true ∧
     _validate_mention text name ticker = true).
Proof.
  intros Hn. unfold mentioned, extract_step. rewrite Hn.
  rewrite elem_of_alias_loop. set_solver.
Qed.

End Mentions.

(** The [break] of line 123: once an alias is found and accepted, the ticker
    is added and the aliases behind it are not looked at. *)
Lemma alias_loop_break (text ticker name : string) (pre post : list string)
    (found : gset string) :
  (∀ n, n ∈ pre → Str.contains (Str.lower n) (Str.lower text) = false) →
  Str.contains (Str.lower name) (Str.lower text) = true →
  _validate_mention text name ticker = true →
  alias_loop text (Str.lower text) ticker (pre ++ name :: post) found
  = {[ ticker ]} ∪ found.
Proof.
  intros Hpre Hc Hv. induction pre as [|n pre IH]; simpl.
  - by rewrite Hc, Hv.
  - rewrite (Hpre n (list_elem_of_here _ _)). apply IH.
    intros n' Hn'. apply Hpre. by apply list_elem_of_further.
Qed.

(** C2. For a watch-list ticker with an alias entry, the ticker is extracted
    from a text if and only if some alias, lower-cased, occurs in the
    lower-cased text and no exclusion phrase of the ticker's own rule occurs
    in it. Only the ticker's own aliases and rule appear, [require_context]
    does not, and the first accepted alias ends the search whatever follows
    it. *)
Theorem extract_tickers_alias_entry (m : Monitor) (text ticker : string)
    (names : list string) :
  ticker ∈ watch_tickers m →
  ticker_to_names m !! ticker = Some names →
  (ticker ∈ extract_tickers m text ↔
     (∃ name, name ∈ names ∧
        Str.contains (Str.lower name) (Str.lower text) = true) ∧
     (∀ rule, false_positive_filters !! ticker = Some rule →
        ∀ p, p ∈ exclude_phrases rule →
          Str.contains p (Str.lower text) = false)) ∧
  (∀ pre name post found,
     names = (pre ++ name :: post)%list →
     (∀ n, n ∈ pre → Str.contains (Str.lower n) (Str.lower text) = false) →
     Str.contains (Str.lower name) (Str.lower text) = true →
     _validate_mention text name ticker = true →
     extract_step m text (Str.upper text) (Str.lower text) found ticker
     = {[ ticker ]} ∪ found).
Proof.
  intros Hw Hn. split.
  - rewrite elem_of_extract_tickers, (mentioned_aliases _ _ _ _ Hn).
    split.
    + intros (_ & name & Hin & Hc & Hv). split; [by exists name|].
      by apply (validate_mention_spec text name).
    + intros [(name & Hin & Hc) Hv]. split; [done|].
      exists name. split; [done|]. split; [done|].
      by apply validate_mention_spec.
  - intros pre name post found -> Hpre Hc Hv.
    unfold extract_step. rewrite Hn. by apply alias_loop_break.
Qed.

(** C8. For a watch-list ticker without alias entry, the ticker is extracted
    from a text exactly when the bare symbol occurs in the text compared
    without regard to case: the symbol, which is its own upper-case form,
    stands somewhere in the upper-cased text. For a symbol and a text of
    ASCII characters that is to say that the lower-cased symbol stands
    somewhere in the lower-cased text. Nothing else is matched for it. *)
Theorem extract_tickers_no_alias_entry (watch0 : list string)
    (file : mappings_file) (text T : string) :
  let m := init watch0 file in
  T ∈ watch_tickers m →
  ticker_to_names m !! T = None →
  Str.upper T = T ∧
  (T ∈ extract_tickers m text ↔
   ∃ before after, Str.upper text = before +:+ Str.upper T +:+ after) ∧
  (Forall (λ c, (N_of_ascii c < 128)%N) (list_ascii_of_string text) →
   Forall (λ c, (N_of_ascii c < 128)%N) (list_ascii_of_string T) →
   (T ∈ extract_tickers m text ↔
    ∃ before after, Str.lower text = before +:+ Str.lower T +:+ after)).
Proof.
  intros m Hw Hn.
  assert (Str.upper T = T) as HT.
  { simpl in Hw. apply list_elem_of_fmap in Hw as (t0 & -> & _).
    apply StrFacts.upper_idem. }
  split; [done|].
  rewrite elem_of_extract_tickers, (mentioned_fallback _ _ _ Hn).
  split.
  - rewrite StrFacts.contains_spec, HT. tauto.
  - intros _ _.
    rewrite <- StrFacts.contains_spec, <- StrFacts.contains_fold_case, HT.
    tauto.
Qed.

(** C10. The fallback path for a watch-list ticker without alias entry
    decides by the bare symbol alone and never asks [_validate_mention]: for
    OPEN, absent from the mapping, a text about OpenAI contains an exclusion
    phrase of OPEN's rule, and OPEN is reported all the same. *)
Theorem fallback_skips_validation :
  (∀ (m : Monitor) (text T : string),
     T ∈ watch_tickers m → ticker_to_names m !! T = None →
     (T ∈ extract_tickers m text ↔ Str.contains T (Str.upper text) = true)) ∧
  (∃ (m : Monitor) (text T : string) (rule : mention_filter) (p : string),
     m = init ["OPEN"] (Loaded ∅) ∧
     T ∈ watch_tickers m ∧ ticker_to_names m !! T = None ∧
     false_positive_filters !! T = Some rule ∧ p ∈ exclude_phrases rule ∧
     Str.contains p (Str.lower text) = true ∧
     _validate_mention text T T = false ∧
     T ∈ extract_tickers m text).
Proof.
  split.
  - intros m text T Hw Hn.
    rewrite elem_of_extract_tickers, (mentioned_fallback _ _ _ Hn). tauto.
  - exists (init ["OPEN"] (Loaded ∅)), "OpenAI announced a new model", "OPEN".
    eexists _, "openai". split; [done|].
    split; [apply list_elem_of_here|]. split; [by vm_compute|].
    split; [by vm_compute|]. split; [apply list_elem_of_here|].
    split; [by vm_compute|]. split; [by vm_compute|].
    apply (bool_decide_unpack _). by vm_compute.
Qed.

Lemma extract_tickers_alias_entry_witness :
  let m := init ["mstr"; "open"]
             (Loaded {[ "MSTR" := {| aliases := Some ["MSTR"; "MicroStrategy"] |};
                        "OPEN" := {| aliases := Some ["OPEN"; "Opendoor"] |} ]}) in
  "MSTR" ∈ extract_tickers m "MicroStrategy bought more bitcoin".
Proof.
  intros m.
  destruct (extract_tickers_alias_entry m "MicroStrategy bought more bitcoin"
              "MSTR" ["MSTR"; "MicroStrategy"]) as [[_ H] _].
  - apply list_elem_of_here.
  - vm_compute. reflexivity.
  - apply H. split.
    + exists "MicroStrategy". split; [|vm_compute; reflexivity].
      apply list_elem_of_further, list_elem_of_here.
    + apply (validate_mention_spec _ "MicroStrategy"). vm_compute. reflexivity.
Defined.

Lemma extract_tickers_no_alias_entry_witness :
  "TSLA" ∈ extract_tickers (init ["tsla"] (Loaded ∅)) "Why Tsla fell".
Proof.
  destruct (extract_tickers_no_alias_entry ["tsla"] (Loaded ∅) "Why Tsla fell"
              "TSLA") as (_ & _ & H).
  - apply list_elem_of_here.
  - vm_compute. reflexivity.
  - apply H.
    + apply (bool_decide_unpack _). vm_compute. reflexivity.
    + apply (bool_decide_unpack _). vm_compute. reflexivity.
    + exists "why ", " fell". vm_compute. reflexivity.
Defined.

(** The two resolver examples of the specification: "OpenAI" vetoes OPEN, and
    "MicroStrategy" alone is enough for MSTR. *)
Example open_vetoed_by_openai :
  let m := init ["OPEN"; "MSTR"]
             (Loaded {[ "OPEN" := {| aliases := Some ["OPEN"; "Opendoor"] |};
                        "MSTR" := {| aliases := Some ["MSTR"; "MicroStrategy"] |} ]}) in
  elements (extract_tickers m "OpenAI announced a new model") = [] ∧
  elements (extract_tickers m "MicroStrategy bought more bitcoin") = ["MSTR"].
Proof. by vm_compute. Qed.

(** ** The alias table *)

Lemma lookup_identity_mapping (watch : list string) (T : string) :
  (list_to_map ((λ ticker, (ticker, [ticker])) <$> watch)
     : gmap string (list string)) !! T
  = if decide (T ∈ watch) then Some [T] else None.
Proof.
  induction watch as [|t watch IH].
  - rewrite fmap_nil, list_to_map_nil, lookup_empty.
    case_decide as H; [inversion H | done].
  - rewrite fmap_cons, list_to_map_cons, lookup_insert, IH.
    destruct (decide (t = T)) as [->|Hne].
    + by rewrite decide_True by apply list_elem_of_here.
    + repeat case_decide; try done.
      * exfalso. eauto using list_elem_of_further.
      * exfalso. match goal with H : T ∈ t :: _ |- _ =>
          apply elem_of_cons in H as [->|H] end; done.
Qed.

(** The restriction of line 30-32 keeps exactly the watch-list keys. *)
Lemma lookup_ticker_to_names (watch0 : list string) (file : mappings_file)
    (T : string) :
  ticker_to_names (init watch0 file) !! T =
    if decide (T ∈ watch_tickers (init watch0 file))
    then load_ticker_mappings (Str.upper <$> watch0) file !! T
    else None.
Proof.
  simpl. rewrite map_lookup_filter.
  destruct (load_ticker_mappings _ file !! T) as [names|]; simpl.
  - destruct (decide (T ∈ Str.upper <$> watch0)).
    + by rewrite option_guard_True.
    + by rewrite option_guard_False.
  - by destruct (decide _).
Qed.

(** C9 (as amended). After construction every key of the alias table is a
    watch-list ticker. If the mapping file is absent or malformed, every
    watch-list ticker has the singleton alias list of its own symbol. If the
    file loads, a watch-list ticker whose entry has no alias list has that
    singleton, one whose entry lists one or more aliases has exactly that
    list, and one without entry in the file has no alias list in the table. *)
Theorem alias_table_after_init (watch0 : list string) (file : mappings_file)
    (T : string) :
  let m := init watch0 file in
  T ∈ watch_tickers m →
  (∀ k, is_Some (ticker_to_names m !! k) → k ∈ watch_tickers m) ∧
  (file = FileNotFoundError ∨ (∃ e, file = JSONDecodeError e) →
     ticker_to_names m !! T = Some [T]) ∧
  (∀ data, file = Loaded data →
     (data !! T = None → ticker_to_names m !! T = None) ∧
     (∀ info, data !! T = Some info → aliases info = None →
        ticker_to_names m !! T = Some [T]) ∧
     (∀ info a l, data !! T = Some info → aliases info = Some (a :: l) →
        ticker_to_names m !! T = Some (a :: l))).
Proof.
  intros m Hw. split; [|split].
  - intros k [names Hk]. subst m. rewrite lookup_ticker_to_names in Hk.
    by destruct (decide _).
  - intros Hfile. subst m. rewrite lookup_ticker_to_names.
    rewrite decide_True by done.
    assert (load_ticker_mappings (Str.upper <$> watch0) file
            = list_to_map ((λ ticker, (ticker, [ticker])) <$> (Str.upper <$> watch0)))
      as -> by (destruct Hfile as [->|[e ->]]; done).
    rewrite lookup_identity_mapping. by rewrite decide_True by done.
  - intros data ->. subst m. rewrite lookup_ticker_to_names.
    rewrite decide_True by done. simpl. rewrite map_lookup_imap.
    split; [|split].
    + by intros ->.
    + intros info -> Ha. simpl. by rewrite Ha.
    + intros info a l -> Ha. simpl. by rewrite Ha.
Qed.

Lemma alias_table_after_init_witness :
  ticker_to_names
    (init ["aapl"; "tsla"]
       (Loaded {[ "AAPL" := {| aliases := Some ["AAPL"; "Apple"] |} ]})) !! "TSLA"
  = None.
Proof.
  destruct (alias_table_after_init ["aapl"; "tsla"]
              (Loaded {[ "AAPL" := {| aliases := Some ["AAPL"; "Apple"] |} ]})
              "TSLA") as (_ & _ & H).
  - apply list_elem_of_further, list_elem_of_here.
  - destruct (H _ eq_refl) as [H0 _]. apply H0. vm_compute. reflexivity.
Defined.

(** C9 (as stated) fails: with a mapping file that loads but has no entry
    for a watch-list ticker, the ticker has no alias list at all. *)
Lemma alias_table_entry_missing :
  let m := init ["AAPL"] (Loaded ∅) in
  "AAPL" ∈ watch_tickers m ∧ ticker_to_names m !! "AAPL" = None.
Proof. split; [apply list_elem_of_here | by vm_compute]. Qed.

(** ** Scores and thresholds *)

Lemma Qltb_lt (x y : Q) : Qltb x y = true ↔ (x < y)%Q.
Proof.
  unfold Qltb. rewrite negb_true_iff, <- not_true_iff_false, Qle_bool_iff.
  split; [apply Qnot_le_lt | apply Qlt_not_le].
Qed.

Lemma Qltb_ge (x y : Q) : Qltb x y = false ↔ (y <= x)%Q.
Proof. unfold Qltb. by rewrite negb_false_iff, Qle_bool_iff. Qed.

#[local] Instance Qltb_proper : Proper (Qeq ==> Qeq ==> eq) Qltb.
Proof. intros x x' Hx y y' Hy. unfold Qltb. by rewrite Hx, Hy. Qed.

Ltac threshold_chain :=
  repeat match goal with
  | |- context [Qltb ?x ?y] =>
      let H := fresh "H" in
      destruct (Qltb x y) eqn:H;
      [apply Qltb_lt in H | apply Qltb_ge in H]
  end.

Lemma overall_sentiment_label (avg : Q) :
  mean_label avg (overall_sentiment avg).1.
Proof.
  unfold mean_label, overall_sentiment. threshold_chain; simpl;
    repeat split; intros; try done; exfalso; lra.
Qed.

Lemma ticker_sentiment_label (avg : Q) :
  mean_label avg (ticker_sentiment_of avg).1.
Proof.
  unfold mean_label, ticker_sentiment_of. threshold_chain; simpl;
    repeat split; intros; try done; exfalso; lra.
Qed.

(** ** Summaries in the report *)

Lemma generate_html_report_nonempty (m : Monitor) (a : article)
    (l : list article) (ta : gmap string (list article)) :
  let r := generate_html_report m (a :: l) ta in
  avg_score r = mean_score (a :: l) ∧
  overall r = (overall_sentiment (mean_score (a :: l))).1 ∧
  n_articles r = length (a :: l).
Proof.
  unfold generate_html_report.
  by destruct (overall_sentiment (mean_score (a :: l))).
Qed.

Lemma ticker_section_nonempty (ta : gmap string (list article))
    (ticker : string) (a : article) (l : list article) :
  ta !! ticker = Some (a :: l) →
  ticker_section ta ticker =
    TickerSummary ticker
      (ticker_sentiment_of (mean_score (a :: l))).1
      (ticker_sentiment_of (mean_score (a :: l))).2
      (length (a :: l)) (mean_score (a :: l))
      ((λ x, (badge_class_of (score x), x)) <$> top_articles (a :: l)).
Proof.
  intros H. unfold ticker_section. rewrite H. simpl.
  by destruct (ticker_sentiment_of (mean_score (a :: l))).
Qed.

(** C1 (as amended). The label of an aggregate mean, for the overall summary
    and for each ticker that has articles, follows the report's own table:
    above 0.3 BULLISH, above 0 Slightly Bullish, below -0.3 BEARISH, below 0
    Slightly Bearish, and Neutral at exactly 0. *)
Theorem report_labels_follow_mean_table (m : Monitor)
    (all_articles : list article) (ta : gmap string (list article)) :
  let r := generate_html_report m all_articles ta in
  (all_articles ≠ [] →
     avg_score r = mean_score all_articles ∧
     mean_label (avg_score r) (overall r)) ∧
  (∀ (i : nat) (ticker : string) (articles : list article),
     watch_tickers m !! i = Some ticker →
     ta !! ticker = Some articles → articles ≠ [] →
     ∃ label colour headlines,
       sections r !! i =
         Some (TickerSummary ticker label colour (length articles)
                 (mean_score articles) headlines) ∧
       mean_label (mean_score articles) label).
Proof.
  intros r. split.
  - intros Hne. destruct all_articles as [|a l]; [done|].
    destruct (generate_html_report_nonempty m a l ta) as (Havg & Hov & _).
    subst r. rewrite Havg, Hov. split; [done|]. apply overall_sentiment_label.
  - intros i ticker articles Hi Hta Hne.
    destruct articles as [|a l]; [done|].
    eexists _, _, _. split; [|apply ticker_sentiment_label].
    subst r. unfold generate_html_report.
    destruct (match all_articles with [] => _ | _ :: _ => _ end) as [? [? ?]].
    simpl. rewrite list_lookup_fmap, Hi. simpl.
    by rewrite (ticker_section_nonempty _ _ _ _ Hta).
Qed.

(** C6. The overall summary of no articles has score 0 and the label
    "No Data"; the summary of one article of score 0 has the label "Neutral",
    and the two labels differ. *)
Theorem summary_no_data_vs_neutral (m : Monitor) (a : article)
    (ta : gmap string (list article)) :
  (score a == 0)%Q →
  let r0 := generate_html_report m [] ta in
  let r1 := generate_html_report m [a] ta in
  overall r0 = "No Data" ∧ avg_score r0 = 0%Q ∧ n_articles r0 = 0%nat ∧
  overall r1 = "⚪ Neutral" ∧ (avg_score r1 == 0)%Q ∧ n_articles r1 = 1%nat ∧
  overall r0 ≠ overall r1.
Proof.
  intros Ha r0 r1.
  assert (mean_score [a] == 0)%Q as Hmean.
  { unfold mean_score, sum_scores. simpl. rewrite Ha. reflexivity. }
  destruct (generate_html_report_nonempty m a [] ta) as (Havg & Hov & Hn).
  fold r1 in Havg, Hov, Hn.
  assert (overall r1 = "⚪ Neutral") as Hneutral.
  { rewrite Hov. by apply overall_sentiment_label. }
  repeat split; try done.
  - by rewrite Havg.
  - rewrite Hneutral. done.
Qed.

Lemma summary_no_data_vs_neutral_witness :
  let a := {| title := "Markets flat"; link := ""; published := ""; summary := "";
              source := "wire"; sentiment := "Neutral"; score := 0;
              tickers := [] |} in
  overall (generate_html_report (init [] FileNotFoundError) [] ∅) = "No Data" ∧
  overall (generate_html_report (init [] FileNotFoundError) [a] ∅) = "⚪ Neutral".
Proof.
  intros a.
  destruct (summary_no_data_vs_neutral (init [] FileNotFoundError) a ∅)
    as (H0 & _ & _ & H1 & _).
  - reflexivity.
  - split; [exact H0 | exact H1].
Defined.

(** C1 (as stated) fails: over two articles of scores 0.4 and -0.3 the
    overall mean is 0.05; the table for single texts would call that Neutral,
    the report labels it Slightly Bullish, and labels the TSLA mean of -0.3
    Slightly Bearish. *)
Lemma mean_0_05_is_slightly_bullish :
  let fetched := fetch_and_analyse_articles Scenario.monitor Scenario.scorer
                   Scenario.two_articles in
  let r := generate_html_report Scenario.monitor fetched.1 fetched.2 in
  n_articles r = 2%nat ∧ (avg_score r == 0.05)%Q ∧
  sentiment_of_score (avg_score r) = "Neutral" ∧
  overall r = "🟢 Slightly Bullish" ∧
  sections r !! 1%nat =
    Some (TickerSummary "TSLA" "🔴 Slightly Bearish" "#FFA07A" 1 (-0.3)%Q
            [("bearish",
              {| title := "Tesla misses delivery estimates"; link := "";
                 published := ""; summary := ""; source := "Example";
                 sentiment := "Bearish"; score := (-0.3)%Q;
                 tickers := ["TSLA"] |})]).
Proof. vm_compute. repeat split. Qed.

(** ** The stable descending sort and the top five *)

Section SortedFacts.
Context {A : Type} (key : A → Q).

Lemma insert_desc_perm (x : A) (l : list A) : insert_desc key x l ≡ₚ x :: l.
Proof.
  induction l as [|y l IH]; simpl; [done|].
  destruct (Qltb (key x) (key y)); [|done].
  rewrite IH. apply Permutation_swap.
Qed.

Lemma sorted_desc_perm (l : list A) : sorted_desc key l ≡ₚ l.
Proof.
  induction l as [|x l IH]; simpl; [done|].
  by rewrite insert_desc_perm, IH.
Qed.

Lemma insert_desc_sorted (x : A) (l : list A) :
  StronglySorted (desc key) l → StronglySorted (desc key) (insert_desc key x l).
Proof.
  induction 1 as [|y l Hs IH Hall]; simpl.
  - by repeat constructor.
  - destruct (Qltb (key x) (key y)) eqn:Hxy.
    + apply Qltb_lt in Hxy. constructor; [done|].
      rewrite insert_desc_perm. constructor; [|done].
      unfold desc. by apply Qlt_le_weak.
    + apply Qltb_ge in Hxy. constructor; [by constructor|].
      constructor; [done|].
      eapply Forall_impl; [exact Hall|].
      intros z Hz. unfold desc in *. by apply Qle_trans with (key y).
Qed.

Lemma sorted_desc_sorted (l : list A) : StronglySorted (desc key) (sorted_desc key l).
Proof.
  induction l as [|x l IH]; simpl; [constructor|].
  by apply insert_desc_sorted.
Qed.



End SortedFacts.



(** Six articles with ties in absolute score: the five headlines keep tied
    articles in input order and leave out the smallest. *)
Example top_articles_ties :
  let art t s := {| title := t; link := ""; published := ""; summary := "";
                    source := ""; sentiment := ""; score := s; tickers := [] |} in
  title <$> top_articles
    [art "a" 0.2; art "b" (-0.5); art "c" 0.5; art "d" (-0.2); art "e" 0.1;
     art "f" 0.5]%Q
  = ["b"; "c"; "f"; "a"; "d"].
Proof. reflexivity. Qed.

(** ** Sentiment analysis and the batch *)

Lemma analyse_sentiment_raise (scorer : Scorer) (text e : string) :
  scorer (Str.slice_to 512 text) = Raise e →
  analyse_sentiment scorer text = Ok ("Neutral", 0%Q).
Proof. intros H. unfold analyse_sentiment. by rewrite H. Qed.

Lemma analyse_sentiment_ok (scorer : Scorer) (text : string) (p n : Q) :
  scorer (Str.slice_to 512 text) = Ok (p, n) →
  analyse_sentiment scorer text = Ok (sentiment_of_score (p - n), (p - n)%Q).
Proof. intros H. unfold analyse_sentiment. by rewrite H. Qed.

(** Whatever the scorer does, the analysis returns a pair. *)
Lemma analyse_sentiment_never_raises (scorer : Scorer) (text : string) :
  ∃ label score, analyse_sentiment scorer text = Ok (label, score).
Proof.
  destruct (scorer (Str.slice_to 512 text)) as [[p n]|e] eqn:H.
  - eexists _, _. by apply analyse_sentiment_ok.
  - eexists _, _. by eapply analyse_sentiment_raise.
Qed.

Section Batch.
Variable m : Monitor.
Variable scorer : Scorer.
Variable source_name : string.

Local Abbreviation loop := (entries_loop m scorer source_name).

(** The loop over the entries of a feed always runs to its end. *)
Lemma entries_loop_ok (es : list entry) (st : fetch_state) :
  (loop es st).2 = Ok tt.
Proof.
  revert st. induction es as [|e es IH]; intros st; simpl; [done|].
  destruct (analyse_sentiment_never_raises scorer (combined_text e))
    as (label & sc & ->).
  apply IH.
Qed.

Lemma entries_loop_app (es1 es2 : list entry) (st : fetch_state) :
  loop (es1 ++ es2) st = loop es2 (loop es1 st).1.
Proof.
  revert st. induction es1 as [|e es1 IH]; intros st; simpl; [done|].
  destruct (analyse_sentiment_never_raises scorer (combined_text e))
    as (label & sc & ->).
  apply IH.
Qed.

(** The articles a run of the loop adds do not depend on the state it
    starts from. *)
Lemma entries_loop_all_articles (es : list entry) (st : fetch_state) :
  all_articles (loop es st).1
  = (all_articles st ++ all_articles (loop es empty_state).1)%list.
Proof.
  revert st. induction es as [|e es IH]; intros st; simpl.
  - by rewrite app_nil_r.
  - destruct (analyse_sentiment_never_raises scorer (combined_text e))
      as (label & sc & ->).
    rewrite (IH (add_article st _ _)), (IH (add_article empty_state _ _)).
    simpl. by rewrite <- app_assoc.
Qed.

Lemma entries_loop_Forall (P : article → Prop) (es : list entry)
    (st : fetch_state) :
  (∀ e label sc,
     analyse_sentiment scorer (combined_text e) = Ok (label, sc) →
     P (make_article m source_name e label sc)) →
  Forall P (all_articles st) →
  Forall P (all_articles (loop es st).1).
Proof.
  intros HP. revert st. induction es as [|e es IH]; intros st Hst; simpl.
  - done.
  - destruct (analyse_sentiment scorer (combined_text e))
      as [[label sc]|x] eqn:Ha; [|done].
    apply IH. simpl. apply Forall_app. split; [done|].
    constructor; [by apply HP | constructor].
Qed.

End Batch.

Lemma foldl_Qplus_from (a : Q) (l : list Q) :
  (foldl Qplus a l == a + foldl Qplus 0 l)%Q.
Proof.
  revert a. induction l as [|x l IH]; intros a; simpl.
  - ring.
  - rewrite (IH (a + x)%Q), (IH (0 + x)%Q). ring.
Qed.

Lemma sum_scores_app (l1 l2 : list article) :
  (sum_scores (l1 ++ l2) == sum_scores l1 + sum_scores l2)%Q.
Proof.
  unfold sum_scores. rewrite fmap_app, foldl_app. apply foldl_Qplus_from.
Qed.

Lemma sum_scores_cons (a : article) (l : list article) :
  (sum_scores (a :: l) == score a + sum_scores l)%Q.
Proof.
  unfold sum_scores. rewrite fmap_cons. cbn [foldl].
  rewrite foldl_Qplus_from. ring.
Qed.

(** C4. If the scorer raises on an item, the analysis of that item gives
    ("Neutral", 0) and nothing is raised: the loop over the batch runs to its
    end, the articles of the items before and behind are the ones they give
    on their own, the failed item stands between them with ("Neutral", 0),
    and the sum of scores is the sum over the other items. *)
Theorem scorer_failure_substituted (m : Monitor) (scorer : Scorer)
    (source_name : string) (pre post : list entry) (e : entry)
    (st : fetch_state) :
  (∃ x, scorer (Str.slice_to 512 (combined_text e)) = Raise x) →
  let articles_of es :=
    all_articles (entries_loop m scorer source_name es empty_state).1 in
  let failed := make_article m source_name e "Neutral" 0 in
  analyse_sentiment scorer (combined_text e) = Ok ("Neutral", 0%Q) ∧
  (entries_loop m scorer source_name (pre ++ e :: post) st).2 = Ok tt ∧
  articles_of (pre ++ e :: post)%list
  = (articles_of pre ++ failed :: articles_of post)%list ∧
  (sum_scores (articles_of (pre ++ e :: post)%list)
   == sum_scores (articles_of pre ++ articles_of post)%list)%Q.
Proof.
  intros [x Hx] articles_of failed.
  pose proof (analyse_sentiment_raise _ _ _ Hx) as Ha.
  assert (articles_of (pre ++ e :: post)%list
          = (articles_of pre ++ failed :: articles_of post)%list) as Hall.
  { unfold articles_of. rewrite entries_loop_app, entries_loop_all_articles.
    f_equal. simpl. rewrite Ha.
    rewrite entries_loop_all_articles. done. }
  split; [done|]. split; [apply entries_loop_ok|]. split; [done|].
  rewrite Hall, !sum_scores_app, sum_scores_cons.
  change (score failed) with 0%Q. ring.
Qed.

Lemma scorer_failure_substituted_witness :
  let es := Scenario.headline <$>
              ["Apple posts record iPhone sales"; "Fed holds rates";
               "Tesla misses delivery estimates"] in
  (λ a, (sentiment a, score a)) <$>
    all_articles
      (entries_loop Scenario.monitor Scenario.scorer "Example" es empty_state).1
  = [("Bullish", 0.4%Q); ("Neutral", 0%Q); ("Bearish", (-0.3)%Q)].
Proof.
  intros es.
  destruct (scorer_failure_substituted Scenario.monitor Scenario.scorer "Example"
              [Scenario.headline "Apple posts record iPhone sales"]
              [Scenario.headline "Tesla misses delivery estimates"]
              (Scenario.headline "Fed holds rates") empty_state)
    as (_ & _ & H & _).
  - exists "model error". vm_compute. reflexivity.
  - etransitivity; [exact (f_equal (fmap (λ a, (sentiment a, score a))) H)|].
    vm_compute. reflexivity.
Defined.

(** ** The whole fetch *)

Lemma feed_step_Forall (P : article → Prop) (m : Monitor) (scorer : Scorer)
    (st : fetch_state) (f : string * result feed) :
  (∀ src e label sc,
     analyse_sentiment scorer (combined_text e) = Ok (label, sc) →
     P (make_article m src e label sc)) →
  Forall P (all_articles st) →
  Forall P (all_articles (feed_step m scorer st f)).
Proof.
  intros HP Hst. destruct f as [feed_url [fd|x]]; simpl; [|done].
  apply entries_loop_Forall; [|done]. intros e label sc. apply HP.
Qed.

(** A property that every freshly built article has holds for all fetched
    articles. *)
Lemma fetch_Forall (P : article → Prop) (m : Monitor) (scorer : Scorer)
    (rss_feeds : list (string * result feed)) :
  (∀ src e label sc,
     analyse_sentiment scorer (combined_text e) = Ok (label, sc) →
     P (make_article m src e label sc)) →
  Forall P (fetch_and_analyse_articles m scorer rss_feeds).1.
Proof.
  intros HP. unfold fetch_and_analyse_articles. simpl.
  assert (Forall P (all_articles empty_state)) as H0 by constructor.
  revert H0. generalize empty_state.
  induction rss_feeds as [|f fs IH]; intros st Hst; simpl; [done|].
  apply IH. by apply feed_step_Forall.
Qed.

Lemma sum_scores_zero (l : list article) :
  Forall (λ a, score a = 0%Q) l → (sum_scores l == 0)%Q.
Proof.
  induction 1 as [|a l Ha _ IH].
  - reflexivity.
  - rewrite sum_scores_cons, Ha, IH. reflexivity.
Qed.

(** C5 (as amended). If the scorer fails on every item, the scan still
    completes: nothing is raised, every article carries ("Neutral", 0), the
    overall mean is 0, and with at least one article the overall label is
    Neutral. *)
Theorem scorer_down_scan_completes (m : Monitor) (scorer : Scorer)
    (rss_feeds : list (string * result feed)) (smtp : result unit) :
  (∀ text, ∃ x, scorer text = Raise x) →
  let fetched := fetch_and_analyse_articles m scorer rss_feeds in
  let r := generate_html_report m fetched.1 fetched.2 in
  (∃ sent, run_daily_scan m scorer rss_feeds smtp = Ok (r, sent)) ∧
  Forall (λ a, sentiment a = "Neutral" ∧ score a = 0%Q) fetched.1 ∧
  (avg_score r == 0)%Q ∧
  (fetched.1 ≠ [] → overall r = "⚪ Neutral").
Proof.
  intros Hdown fetched r.
  assert (Forall (λ a, sentiment a = "Neutral" ∧ score a = 0%Q) fetched.1)
    as Hall.
  { apply fetch_Forall. intros src e label sc Ha.
    destruct (Hdown (Str.slice_to 512 (combined_text e))) as [x Hx].
    rewrite (analyse_sentiment_raise _ _ _ Hx) in Ha.
    by injection Ha as <- <-. }
  assert (fetched.1 ≠ [] → avg_score r = mean_score fetched.1 ∧
          overall r = (overall_sentiment (mean_score fetched.1)).1) as Hne.
  { intros Hne. subst r. destruct (fetched.1) as [|a l]; [done|].
    destruct (generate_html_report_nonempty m a l fetched.2) as (? & ? & _).
    done. }
  assert (mean_score fetched.1 == 0)%Q as Hmean.
  { unfold mean_score. rewrite sum_scores_zero.
    - unfold Qdiv. ring.
    - eapply Forall_impl; [exact Hall|]. by intros a [_ ?]. }
  split; [|split; [done|split]].
  - unfold run_daily_scan. fold fetched. destruct fetched as [arts ta].
    destruct smtp; simpl; eauto.
  - assert (fetched.1 = [] ∨ fetched.1 ≠ []) as [Hf|Hf]
      by (destruct fetched.1; [by left | by right]).
    + subst r. rewrite Hf. reflexivity.
    + destruct (Hne Hf) as [-> _]. exact Hmean.
  - intros Hf. destruct (Hne Hf) as [_ ->].
    by apply overall_sentiment_label.
Qed.

Lemma scorer_down_scan_completes_witness :
  let fetched := fetch_and_analyse_articles Scenario.monitor Scenario.no_scorer
                   Scenario.two_articles in
  overall (generate_html_report Scenario.monitor fetched.1 fetched.2)
  = "⚪ Neutral".
Proof.
  intros fetched.
  destruct (scorer_down_scan_completes Scenario.monitor Scenario.no_scorer
              Scenario.two_articles (Ok tt)) as (_ & _ & _ & H).
  - intros text. exists "scorer unavailable". reflexivity.
  - apply H. vm_compute. discriminate.
Defined.

(** C5 (as stated) fails: with the scorer down on every item the scan of two
    articles ends normally, with a report whose two articles carry
    ("Neutral", 0) and whose overall label is Neutral. *)
Lemma scorer_down_report_is_neutral :
  let fetched := fetch_and_analyse_articles Scenario.monitor Scenario.no_scorer
                   Scenario.two_articles in
  let r := generate_html_report Scenario.monitor fetched.1 fetched.2 in
  run_daily_scan Scenario.monitor Scenario.no_scorer Scenario.two_articles (Ok tt)
  = Ok (r, true) ∧
  (λ a, (sentiment a, score a)) <$> fetched.1
  = [("Neutral", 0%Q); ("Neutral", 0%Q)] ∧
  n_articles r = 2%nat ∧ overall r = "⚪ Neutral".
Proof. vm_compute. repeat split. Qed.

(** ** Keys of the per-ticker mapping *)

Lemma foldl_append_for_is_Some (a : article) (ta : gmap string (list article))
    (l : list string) (t : string) :
  is_Some (foldl (append_for a) ta l !! t) ↔ is_Some (ta !! t) ∨ t ∈ l.
Proof.
  revert ta. induction l as [|x l IH]; intros ta; simpl.
  - split; [by left|]. intros [H|H]; [done | inversion H].
  - rewrite IH. unfold append_for. rewrite lookup_insert_is_Some, elem_of_cons.
    destruct (decide (x = t)) as [->|Hne]; naive_solver.
Qed.

Lemma add_article_keys (st : fetch_state) (a : article)
    (mentioned_tickers : gset string) :
  tickers a = elements mentioned_tickers →
  keys_are_mentions st →
  keys_are_mentions (add_article st a mentioned_tickers).
Proof.
  unfold keys_are_mentions. intros Ht Hst t. simpl.
  rewrite foldl_append_for_is_Some, Hst, <- Ht. split.
  - intros [(b & Hb & Hbt)|Hat].
    + exists b. split; [|done]. apply elem_of_app. by left.
    + exists a. split; [|done]. apply elem_of_app. right. apply list_elem_of_here.
  - intros (b & Hb & Hbt). apply elem_of_app in Hb as [Hb|Hb].
    + left. by exists b.
    + right. apply list_elem_of_singleton in Hb. by subst b.
Qed.

Lemma entries_loop_keys (m : Monitor) (scorer : Scorer) (source_name : string)
    (es : list entry) (st : fetch_state) :
  keys_are_mentions st →
  keys_are_mentions (entries_loop m scorer source_name es st).1.
Proof.
  revert st. induction es as [|e es IH]; intros st Hst; simpl; [done|].
  destruct (analyse_sentiment scorer (combined_text e)) as [[label sc]|x];
    [|done].
  apply IH. by apply add_article_keys.
Qed.

Lemma fetch_keys_are_mentions (m : Monitor) (scorer : Scorer)
    (rss_feeds : list (string * result feed)) (t : string) :
  let fetched := fetch_and_analyse_articles m scorer rss_feeds in
  is_Some (fetched.2 !! t) ↔ ∃ a, a ∈ fetched.1 ∧ t ∈ tickers a.
Proof.
  unfold fetch_and_analyse_articles. simpl.
  assert (keys_are_mentions empty_state) as H0.
  { intros t'. simpl. rewrite lookup_empty. split.
    - by intros [? ?].
    - intros (a & Ha & _). inversion Ha. }
  revert H0. generalize empty_state.
  induction rss_feeds as [|f fs IH]; intros st Hst; simpl; [apply Hst|].
  apply IH. destruct f as [feed_url [fd|x]]; simpl; [|done].
  by apply entries_loop_keys.
Qed.

(** The report has one block per watch-list ticker, in watch-list order; a
    ticker that is no key of the mapping gets the no-articles block. *)
Lemma report_covers_watch_list (m : Monitor) (all_articles : list article)
    (ta : gmap string (list article)) :
  let r := generate_html_report m all_articles ta in
  sections r = ticker_section ta <$> watch_tickers m ∧
  (∀ ticker, ta !! ticker = None → ticker_section ta ticker = NoArticles ticker).
Proof.
  split.
  - unfold generate_html_report.
    by destruct (match all_articles with [] => _ | _ :: _ => _ end) as [? [? ?]].
  - intros ticker H. unfold ticker_section. by rewrite H.
Qed.



(** The mapping handed over by the fetch, at a concrete run. With the
    watch-list AAPL, TSLA and one article that mentions only AAPL, the mapping
    has the single key AAPL, where the docstring of the function shows TSLA
    with an empty list. *)
Example zero_mention_ticker_absent :
  let fetched := fetch_and_analyse_articles Scenario.bare_monitor Scenario.scorer
                   (Scenario.one_feed ["AAPL rallies as Apple beats estimates"]) in
  watch_tickers Scenario.bare_monitor = ["AAPL"; "TSLA"] ∧
  tickers <$> fetched.1 = [["AAPL"]] ∧
  elements (dom fetched.2) = ["AAPL"] ∧
  fetched.2 !! "TSLA" = None.
Proof. vm_compute. repeat split. Qed.

(** * Further properties of the code *)

(** ** Sentiment of one text *)

(** X1. When the scorer answers, the analysis returns the difference of the
    two probabilities as score, and the label that lines 138-147 give it:
    above 0.5 VERY BULLISH, above 0.1 Bullish, below -0.5 VERY BEARISH, below
    -0.1 Bearish, and Neutral from -0.1 to 0.1, both ends included. *)
Theorem analyse_sentiment_label_ranges (scorer : Scorer) (text : string)
    (p n : Q) :
  scorer (Str.slice_to 512 text) = Ok (p, n) →
  ∃ label,
    analyse_sentiment scorer text = Ok (label, (p - n)%Q) ∧
    ((0.5 < p - n)%Q → label = "VERY BULLISH") ∧
    ((0.1 < p - n)%Q ∧ (p - n <= 0.5)%Q → label = "Bullish") ∧
    ((p - n < -0.5)%Q → label = "VERY BEARISH") ∧
    ((-0.5 <= p - n)%Q ∧ (p - n < -0.1)%Q → label = "Bearish") ∧
    ((-0.1 <= p - n)%Q ∧ (p - n <= 0.1)%Q → label = "Neutral").
Proof.
  intros H. exists (sentiment_of_score (p - n)).
  split; [by apply analyse_sentiment_ok|].
  generalize (p - n)%Q. intros s. unfold sentiment_of_score.
  threshold_chain; repeat split; intros; try done; exfalso; lra.
Qed.

Lemma analyse_sentiment_label_ranges_witness :
  analyse_sentiment Scenario.scorer "Tesla misses delivery estimates"
  = Ok ("Bearish", (0 - 0.3)%Q).
Proof.
  destruct (analyse_sentiment_label_ranges Scenario.scorer
              "Tesla misses delivery estimates" 0 0.3) as (label & Ha & HL).
  - vm_compute. reflexivity.
  - destruct HL as (_ & _ & _ & Hb & _). rewrite Ha, Hb; [reflexivity|].
    split; lra.
Defined.

(** X2. The badge of a headline (lines 426-435) and the label of a score
    (lines 138-147) cut the scores at the same places: each badge goes with
    exactly one label. *)
Theorem badge_matches_label (s : Q) :
  (badge_class_of s = "very-bullish" ↔ sentiment_of_score s = "VERY BULLISH") ∧
  (badge_class_of s = "bullish" ↔ sentiment_of_score s = "Bullish") ∧
  (badge_class_of s = "very-bearish" ↔ sentiment_of_score s = "VERY BEARISH") ∧
  (badge_class_of s = "bearish" ↔ sentiment_of_score s = "Bearish") ∧
  (badge_class_of s = "neutral" ↔ sentiment_of_score s = "Neutral").
Proof.
  unfold badge_class_of, sentiment_of_score.
  threshold_chain; repeat split; intros; done.
Qed.

(** X3. If the two probabilities the scorer returns lie between 0 and 1, the
    score of the analysis lies between -1 and 1. *)
Theorem analyse_sentiment_score_bounds (scorer : Scorer) (text : string)
    (p n : Q) :
  scorer (Str.slice_to 512 text) = Ok (p, n) →
  (0 <= p)%Q ∧ (p <= 1)%Q → (0 <= n)%Q ∧ (n <= 1)%Q →
  ∃ label s, analyse_sentiment scorer text = Ok (label, s) ∧
             (-1 <= s)%Q ∧ (s <= 1)%Q.
Proof.
  intros H [Hp0 Hp1] [Hn0 Hn1]. eexists _, _.
  split; [by apply analyse_sentiment_ok|]. split; lra.
Qed.

Lemma analyse_sentiment_score_bounds_witness :
  ∃ label s,
    analyse_sentiment Scenario.scorer "Apple posts record iPhone sales"
    = Ok (label, s) ∧ (-1 <= s)%Q ∧ (s <= 1)%Q.
Proof.
  apply (analyse_sentiment_score_bounds Scenario.scorer
           "Apple posts record iPhone sales" 0.4 0).
  - vm_compute. reflexivity.
  - split; lra.
  - split; lra.
Defined.

Lemma slice_to_app (n : nat) (s t : string) :
  (n ≤ String.length s)%nat → Str.slice_to n (s +:+ t) = Str.slice_to n s.
Proof.
  unfold Str.slice_to. revert s. induction n as [|n IH]; intros s Hn.
  - destruct s; simpl; [by destruct t | done].
  - destruct s as [|c s]; simpl in *; [lia|]. f_equal. apply IH. lia.
Qed.

(** X4. The analysis reads the first 512 characters only: behind a text of
    at least 512 ASCII characters, whatever follows changes neither label nor
    score. *)
Theorem analyse_sentiment_ignores_tail (scorer : Scorer) (text extra : string) :
  Forall (λ c, (N_of_ascii c < 128)%N) (list_ascii_of_string text) →
  (512 ≤ String.length text)%nat →
  analyse_sentiment scorer (text +:+ extra) = analyse_sentiment scorer text.
Proof.
  intros _ H. unfold analyse_sentiment. by rewrite slice_to_app.
Qed.

Lemma analyse_sentiment_ignores_tail_witness :
  let text := string_of_list_ascii (repeat "a"%char 512) in
  analyse_sentiment Scenario.scorer (text +:+ " Apple")
  = analyse_sentiment Scenario.scorer text.
Proof.
  intros text. apply analyse_sentiment_ignores_tail.
  - apply (bool_decide_unpack _). vm_compute. reflexivity.
  - apply Nat.leb_le. vm_compute. reflexivity.
Defined.

(** ** Mention resolution *)

Lemma lower_upper (s : string) : Str.lower (Str.upper s) = Str.lower s.
Proof.
  unfold Str.lower, Str.upper. induction s as [|c s IH]; simpl; [done|].
  by rewrite StrFacts.lower_upper_ascii, IH.
Qed.

Lemma upper_lower (s : string) : Str.upper (Str.lower s) = Str.upper s.
Proof.
  unfold Str.lower, Str.upper. induction s as [|c s IH]; simpl; [done|].
  by rewrite StrFacts.upper_lower_ascii, IH.
Qed.

Lemma alias_loop_text_ext (t1 t2 text_lower ticker : string)
    (names : list string) (found : gset string) :
  Str.lower t1 = Str.lower t2 →
  alias_loop t1 text_lower ticker names found
  = alias_loop t2 text_lower ticker names found.
Proof.
  intros H. induction names as [|name names IH]; simpl; [done|].
  unfold _validate_mention. by rewrite H, IH.
Qed.

(** X5. Mention extraction does not look at letter case: two texts of ASCII
    characters with the same lower-case form give the same set of tickers. *)
Theorem extract_tickers_case_insensitive (m : Monitor) (t1 t2 : string) :
  Forall (λ c, (N_of_ascii c < 128)%N) (list_ascii_of_string t1) →
  Forall (λ c, (N_of_ascii c < 128)%N) (list_ascii_of_string t2) →
  Str.lower t1 = Str.lower t2 →
  extract_tickers m t1 = extract_tickers m t2.
Proof.
  intros _ _ H. unfold extract_tickers.
  assert (Str.upper t1 = Str.upper t2) as Hu
    by by rewrite <- (upper_lower t1), H, upper_lower.
  rewrite H, Hu. generalize (∅ : gset string).
  induction (watch_tickers m) as [|t l IH]; intros found; simpl; [done|].
  rewrite IH. f_equal. unfold extract_step.
  destruct (ticker_to_names m !! t); [|done].
  by apply alias_loop_text_ext.
Qed.

Lemma extract_tickers_case_insensitive_witness :
  extract_tickers Scenario.monitor "APPLE and tesla" =
  extract_tickers Scenario.monitor "apple and TESLA".
Proof.
  apply extract_tickers_case_insensitive.
  - apply (bool_decide_unpack _). vm_compute. reflexivity.
  - apply (bool_decide_unpack _). vm_compute. reflexivity.
  - vm_compute. reflexivity.
Defined.

(** X6. Only watched tickers are ever reported. *)
Theorem extract_tickers_watched (m : Monitor) (text ticker : string) :
  ticker ∈ extract_tickers m text → ticker ∈ watch_tickers m.
Proof. rewrite elem_of_extract_tickers. by intros [? _]. Qed.

Lemma extract_tickers_watched_witness :
  "TSLA" ∈ watch_tickers Scenario.monitor.
Proof.
  apply (extract_tickers_watched _ "Tesla misses delivery estimates").
  apply (bool_decide_unpack _). vm_compute. reflexivity.
Defined.

(** X7. A ticker whose alias list is empty is never reported, whatever the
    text. *)
Theorem empty_alias_list_never_matches (m : Monitor) (text ticker : string) :
  ticker_to_names m !! ticker = Some [] →
  ticker ∉ extract_tickers m text.
Proof.
  intros Hn. rewrite elem_of_extract_tickers, (mentioned_aliases _ _ _ _ Hn).
  intros (_ & name & Hin & _). inversion Hin.
Qed.

Lemma empty_alias_list_never_matches_witness :
  bool_decide
    ("AAPL" ∈ extract_tickers
       (init ["AAPL"] (Loaded {[ "AAPL" := {| aliases := Some [] |} ]}))
       "AAPL and Apple rally")
  = false.
Proof.
  apply bool_decide_eq_false_2, empty_alias_list_never_matches.
  vm_compute. reflexivity.
Defined.

(** X8. The empty string occurs in every text: a ticker without exclusion
    rule that has the empty string among its aliases is reported for every
    text. *)
Theorem empty_alias_matches_everything (m : Monitor) (text ticker : string)
    (names : list string) :
  ticker ∈ watch_tickers m →
  ticker_to_names m !! ticker = Some names →
  "" ∈ names →
  false_positive_filters !! ticker = None →
  ticker ∈ extract_tickers m text.
Proof.
  intros Hw Hn He Hf.
  rewrite elem_of_extract_tickers, (mentioned_aliases _ _ _ _ Hn).
  split; [done|]. exists "". split; [done|]. split.
  - simpl. by destruct (Str.lower text).
  - unfold _validate_mention. by rewrite Hf.
Qed.

Lemma empty_alias_matches_everything_witness :
  "" ∈ extract_tickers (init [""] FileNotFoundError) "Fed holds rates".
Proof.
  apply (empty_alias_matches_everything _ _ _ [""]).
  - apply list_elem_of_here.
  - vm_compute. reflexivity.
  - apply list_elem_of_here.
  - vm_compute. reflexivity.
Defined.

(** X9. The result depends on the watch-list as a set only: order and
    repetitions of the watched tickers make no difference. *)
Theorem extract_tickers_watch_order (m1 m2 : Monitor) (text : string) :
  (∀ t, t ∈ watch_tickers m1 ↔ t ∈ watch_tickers m2) →
  ticker_to_names m1 = ticker_to_names m2 →
  extract_tickers m1 text = extract_tickers m2 text.
Proof.
  intros Hw Hn. apply set_eq. intros t.
  rewrite !elem_of_extract_tickers, Hw.
  unfold mentioned, extract_step. by rewrite Hn.
Qed.

Lemma extract_tickers_watch_order_witness :
  extract_tickers (init ["TSLA"; "AAPL"; "TSLA"] FileNotFoundError) "AAPL up" =
  extract_tickers (init ["AAPL"; "TSLA"] FileNotFoundError) "AAPL up".
Proof.
  apply extract_tickers_watch_order.
  - intros t. vm_compute watch_tickers.
    rewrite !elem_of_cons. intuition.
  - vm_compute. reflexivity.
Defined.

(** ** The constructor *)

(** X10. Keys of the mappings file are compared with the upper-cased
    watch-list as they are written: a key that is not in upper case gets no
    entry in the alias table, also when the same symbol is watched. *)
Theorem lower_case_key_dropped (watch0 : list string) (file : mappings_file)
    (k : string) :
  Str.upper k ≠ k →
  ticker_to_names (init watch0 file) !! k = None.
Proof.
  intros Hk. rewrite lookup_ticker_to_names. case_decide as Hin; [|done].
  exfalso. apply Hk. simpl in Hin.
  apply list_elem_of_fmap in Hin as (t0 & -> & _). apply StrFacts.upper_idem.
Qed.

Lemma lower_case_key_dropped_witness :
  let m := init ["aapl"]
             (Loaded {[ "aapl" := {| aliases := Some ["Apple"] |} ]}) in
  ticker_to_names m !! "aapl" = None.
Proof.
  intros m. apply lower_case_key_dropped. vm_compute. discriminate.
Defined.

(** X11. The constructor upper-cases the watch-list and keeps its length and
    order; constructing again from the resulting watch-list gives the same
    monitor. *)
Theorem init_watch_list_upper (watch0 : list string) (file : mappings_file) :
  watch_tickers (init watch0 file) = Str.upper <$> watch0 ∧
  Forall (λ t, Str.upper t = t) (watch_tickers (init watch0 file)) ∧
  init (watch_tickers (init watch0 file)) file = init watch0 file.
Proof.
  assert (Str.upper <$> (Str.upper <$> watch0) = Str.upper <$> watch0) as Hi.
  { rewrite <- list_fmap_compose. apply list_fmap_ext.
    intros _ t _. apply StrFacts.upper_idem. }
  split; [done|]. split.
  - simpl. apply Forall_fmap, Forall_forall. intros t _.
    apply StrFacts.upper_idem.
  - unfold init. simpl. by rewrite Hi.
Qed.

(** ** The fetched articles *)

Lemma foldl_append_for_lookup (a : article) (ta : gmap string (list article))
    (l : list string) (t : string) :
  NoDup l →
  foldl (append_for a) ta l !! t
  = if decide (t ∈ l) then Some (default [] (ta !! t) ++ [a])%list
    else ta !! t.
Proof.
  intros Hnd. revert ta.
  induction Hnd as [|x l Hx Hnd IH]; intros ta; cbn [foldl].
  - destruct (decide (t ∈ [])) as [H|_]; [inversion H | done].
  - rewrite IH. unfold append_for. destruct (decide (x = t)) as [->|Hne].
    + rewrite decide_False by done. rewrite lookup_insert_eq.
      by rewrite decide_True by apply list_elem_of_here.
    + rewrite lookup_insert_ne by done.
      destruct (decide (t ∈ l)) as [Hin|Hin].
      * by rewrite decide_True by by apply list_elem_of_further.
      * rewrite decide_False; [done|].
        intros [->|H]%elem_of_cons; done.
Qed.

Lemma add_article_per_ticker (st : fetch_state) (a : article)
    (mentioned_tickers : gset string) :
  tickers a = elements mentioned_tickers →
  per_ticker_is_filter st →
  per_ticker_is_filter (add_article st a mentioned_tickers).
Proof.
  unfold per_ticker_is_filter. intros Ht Hst t. simpl.
  rewrite foldl_append_for_lookup by apply NoDup_elements.
  rewrite filter_app, <- Hst, <- Ht, filter_cons, filter_nil.
  destruct (decide (t ∈ tickers a)); simpl; [done|].
  by rewrite app_nil_r.
Qed.

Lemma entries_loop_per_ticker (m : Monitor) (scorer : Scorer)
    (source_name : string) (es : list entry) (st : fetch_state) :
  per_ticker_is_filter st →
  per_ticker_is_filter (entries_loop m scorer source_name es st).1.
Proof.
  revert st. induction es as [|e es IH]; intros st Hst; simpl; [done|].
  destruct (analyse_sentiment scorer (combined_text e)) as [[label sc]|x];
    [|done].
  apply IH. by apply add_article_per_ticker.
Qed.

Lemma fetch_per_ticker_is_filter (m : Monitor) (scorer : Scorer)
    (rss_feeds : list (string * result feed)) (t : string) :
  let fetched := fetch_and_analyse_articles m scorer rss_feeds in
  default [] (fetched.2 !! t) = filter (λ a, t ∈ tickers a) fetched.1.
Proof.
  unfold fetch_and_analyse_articles. simpl.
  assert (per_ticker_is_filter empty_state) as H0
    by (intros t'; simpl; by rewrite lookup_empty).
  revert H0. generalize empty_state.
  induction rss_feeds as [|f fs IH]; intros st Hst; simpl; [apply Hst|].
  apply IH. destruct f as [feed_url [fd|x]]; simpl; [|done].
  by apply entries_loop_per_ticker.
Qed.

(** X12. Fan-out: in the result of the fetch, the list kept for a ticker
    consists of exactly the fetched articles that mention the ticker, in
    fetch order; an article that mentions several tickers is in the list of
    each. A ticker that no article mentions has no list. *)
Theorem ticker_articles_fan_out (m : Monitor) (scorer : Scorer)
    (rss_feeds : list (string * result feed)) (t : string) :
  let fetched := fetch_and_analyse_articles m scorer rss_feeds in
  default [] (fetched.2 !! t) = filter (λ a, t ∈ tickers a) fetched.1 ∧
  (fetched.2 !! t = None ↔ filter (λ a, t ∈ tickers a) fetched.1 = []).
Proof.
  intros fetched.
  pose proof (fetch_per_ticker_is_filter m scorer rss_feeds t) as Hf.
  fold fetched in Hf.
  split; [done|]. rewrite <- Hf.
  pose proof (fetch_keys_are_mentions m scorer rss_feeds t) as Hk.
  fold fetched in Hk. split.
  - by intros ->.
  - intros Hnil. apply eq_None_not_Some. intros Hs.
    apply Hk in Hs as (a & Ha & Hta).
    assert (a ∈ filter (λ a, t ∈ tickers a) fetched.1) as Hin
      by by apply list_elem_of_filter.
    rewrite <- Hf, Hnil in Hin. inversion Hin.
Qed.

Lemma entries_loop_length (m : Monitor) (scorer : Scorer) (source_name : string)
    (es : list entry) (st : fetch_state) :
  length (all_articles (entries_loop m scorer source_name es st).1)
  = (length (all_articles st) + length es)%nat.
Proof.
  revert st. induction es as [|e es IH]; intros st; simpl; [lia|].
  destruct (analyse_sentiment_never_raises scorer (combined_text e))
    as (label & sc & ->).
  rewrite IH. simpl. rewrite length_app. simpl. lia.
Qed.

(** X13. Every entry among the first ten of every feed that parses gives one
    article, whatever the scorer does; so a fetch yields at most ten articles
    per feed. *)
Theorem fetch_article_count (m : Monitor) (scorer : Scorer)
    (rss_feeds : list (string * result feed)) :
  let fetched := fetch_and_analyse_articles m scorer rss_feeds in
  length fetched.1 = sum_list (feed_quota <$> rss_feeds) ∧
  (length fetched.1 ≤ 10 * length rss_feeds)%nat.
Proof.
  intros fetched.
  assert (length fetched.1 = sum_list (feed_quota <$> rss_feeds)) as Hlen.
  { subst fetched. unfold fetch_and_analyse_articles. simpl.
    change (sum_list (feed_quota <$> rss_feeds))
      with (length (all_articles empty_state)
            + sum_list (feed_quota <$> rss_feeds))%nat.
    generalize empty_state.
    induction rss_feeds as [|f fs IH]; intros st; [simpl; lia|].
    cbn [foldl]. rewrite IH, fmap_cons.
    change (sum_list (feed_quota f :: (feed_quota <$> fs)))
      with (feed_quota f + sum_list (feed_quota <$> fs))%nat.
    destruct f as [feed_url [fd|x]]; unfold feed_quota, feed_step; cbn [snd].
    - rewrite entries_loop_length, length_take. lia.
    - lia. }
  split; [done|]. rewrite Hlen. clear.
  induction rss_feeds as [|f fs IH]; [simpl; lia|].
  rewrite fmap_cons.
  change (sum_list (feed_quota f :: (feed_quota <$> fs)))
    with (feed_quota f + sum_list (feed_quota <$> fs))%nat.
  assert (feed_quota f ≤ 10)%nat
    by (unfold feed_quota; destruct f.2; lia).
  rewrite length_cons. lia.
Qed.

(** X14. A feed whose parsing raises is skipped: the result is the one of
    the fetch without that feed. *)
Theorem failed_feed_skipped (m : Monitor) (scorer : Scorer)
    (before after : list (string * result feed)) (feed_url x : string) :
  fetch_and_analyse_articles m scorer (before ++ (feed_url, Raise x) :: after)
  = fetch_and_analyse_articles m scorer (before ++ after).
Proof.
  unfold fetch_and_analyse_articles. by rewrite !foldl_app.
Qed.

(** X15. Every fetched article lists watched tickers only, each once, and
    its label is the one its score has by the thresholds of lines 138-147,
    also when the scorer failed on it. *)
Theorem fetched_articles_well_formed (m : Monitor) (scorer : Scorer)
    (rss_feeds : list (string * result feed)) :
  Forall (λ a, NoDup (tickers a) ∧
               (∀ t, t ∈ tickers a → t ∈ watch_tickers m) ∧
               sentiment a = sentiment_of_score (score a))
    (fetch_and_analyse_articles m scorer rss_feeds).1.
Proof.
  apply fetch_Forall. intros src e label sc Ha. simpl.
  split; [apply NoDup_elements|]. split.
  - intros t Ht. apply elem_of_elements in Ht.
    by apply elem_of_extract_tickers in Ht as [? _].
  - unfold analyse_sentiment in Ha.
    destruct (scorer _) as [[p n]|x]; simpl in Ha; by injection Ha as <- <-.
Qed.

(** X16. The source of every fetched article is the title of a feed that
    parsed, or the URL of that feed when it has no title. *)
Theorem article_source (m : Monitor) (scorer : Scorer)
    (rss_feeds : list (string * result feed)) :
  Forall (λ a, ∃ feed_url fd,
                 (feed_url, Ok fd) ∈ rss_feeds ∧
                 source a = default feed_url (feed_title fd))
    (fetch_and_analyse_articles m scorer rss_feeds).1.
Proof.
  unfold fetch_and_analyse_articles. simpl.
  set (P := λ a : article, ∃ feed_url fd,
                 (feed_url, Ok fd) ∈ rss_feeds ∧
                 source a = default feed_url (feed_title fd)).
  assert (∀ fs st, (∀ f, f ∈ fs → f ∈ rss_feeds) →
            Forall P (all_articles st) →
            Forall P (all_articles (foldl (feed_step m scorer) st fs))) as H.
  { induction fs as [|f fs IH]; intros st Hsub Hst; simpl; [done|].
    apply IH.
    - intros f' Hf'. apply Hsub. by apply list_elem_of_further.
    - pose proof (Hsub f (list_elem_of_here _ _)) as Hf.
      destruct f as [feed_url [fd|x]]; simpl; [|done].
      apply entries_loop_Forall; [|done].
      intros e label sc _. by exists feed_url, fd. }
  apply H; [done | constructor].
Qed.

(** ** The report *)

(** X17. The report does not tell a ticker without key from a ticker with an
    empty list: adding an empty list for a ticker that has no key leaves the
    report as it is. *)
Theorem report_missing_key_is_empty_list (m : Monitor)
    (all_articles : list article) (ta : gmap string (list article))
    (t : string) :
  ta !! t = None →
  generate_html_report m all_articles (<[ t := [] ]> ta)
  = generate_html_report m all_articles ta.
Proof.
  intros Ht. unfold generate_html_report.
  destruct (match all_articles with [] => _ | _ :: _ => _ end) as [? [? ?]].
  f_equal. apply list_fmap_ext. intros _ x _. unfold ticker_section.
  destruct (decide (t = x)) as [->|Hne].
  - by rewrite lookup_insert_eq, Ht.
  - by rewrite lookup_insert_ne.
Qed.

Lemma report_missing_key_is_empty_list_witness :
  let fetched := fetch_and_analyse_articles Scenario.bare_monitor Scenario.scorer
                   (Scenario.one_feed ["AAPL rallies as Apple beats estimates"]) in
  generate_html_report Scenario.bare_monitor fetched.1 (<[ "TSLA" := [] ]> fetched.2)
  = generate_html_report Scenario.bare_monitor fetched.1 fetched.2.
Proof.
  intros fetched. apply report_missing_key_is_empty_list.
  vm_compute. reflexivity.
Defined.

(** X18. The report has one block per entry of the watch-list, in watch-list
    order. The block of a ticker without articles is the no-articles block;
    the block of a ticker with articles carries their number, their mean, and
    as many headlines as there are articles, but at most five. *)
Theorem report_blocks (m : Monitor) (all_articles : list article)
    (ta : gmap string (list article)) (i : nat) (ticker : string) :
  watch_tickers m !! i = Some ticker →
  let r := generate_html_report m all_articles ta in
  let articles := default [] (ta !! ticker) in
  length (sections r) = length (watch_tickers m) ∧
  ((articles = [] ∧ sections r !! i = Some (NoArticles ticker)) ∨
   (articles ≠ [] ∧
    ∃ label colour headlines,
      sections r !! i =
        Some (TickerSummary ticker label colour (length articles)
                (mean_score articles) headlines) ∧
      length headlines = (5 `min` length articles)%nat ∧
      headlines.*2 = top_articles articles)).
Proof.
  intros Hi r articles.
  destruct (report_covers_watch_list m all_articles ta) as [Hs _].
  fold r in Hs. rewrite Hs, length_fmap. split; [done|].
  rewrite list_lookup_fmap, Hi. cbn [fmap option_fmap option_map].
  unfold ticker_section. fold articles.
  destruct articles as [|a l] eqn:Ha; [by left|right].
  split; [done|].
  destruct (ticker_sentiment_of (mean_score (a :: l))) as [label colour].
  eexists _, _, _. split; [reflexivity|]. split.
  - rewrite length_fmap. unfold top_articles.
    by rewrite length_take, (Permutation_length (sorted_desc_perm abs_score (a :: l))).
  - rewrite <- list_fmap_compose. apply list_fmap_id.
Qed.

Lemma report_blocks_witness :
  let fetched := fetch_and_analyse_articles Scenario.monitor Scenario.scorer
                   Scenario.two_articles in
  length (sections (generate_html_report Scenario.monitor fetched.1 fetched.2))
  = 2%nat.
Proof.
  intros fetched.
  destruct (report_blocks Scenario.monitor fetched.1 fetched.2 0 "AAPL")
    as [H _]; [reflexivity|].
  exact H.
Defined.

Lemma inject_length_cons {A : Type} (a : A) (l : list A) :
  (inject_Z (Z.of_nat (length (a :: l)))
   == inject_Z (Z.of_nat (length l)) + 1)%Q.
Proof.
  rewrite length_cons, Nat2Z.inj_succ. unfold Z.succ.
  rewrite inject_Z_plus. reflexivity.
Qed.

Lemma sum_scores_bounds (lo hi : Q) (l : list article) :
  Forall (λ a, (lo <= score a)%Q ∧ (score a <= hi)%Q) l →
  (lo * inject_Z (Z.of_nat (length l)) <= sum_scores l)%Q ∧
  (sum_scores l <= hi * inject_Z (Z.of_nat (length l)))%Q.
Proof.
  induction 1 as [|a l [Hlo Hhi] _ [IHlo IHhi]].
  - change (inject_Z (Z.of_nat (length (@nil article)))) with 0%Q.
    change (sum_scores []) with 0%Q. split; lra.
  - rewrite sum_scores_cons, inject_length_cons.
    set (N := inject_Z (Z.of_nat (length l))) in *. split; nra.
Qed.

(** The mean of a non-empty list of articles lies between any two bounds
    that hold for every score in it. *)
Lemma mean_score_bounds (lo hi : Q) (l : list article) :
  l ≠ [] →
  Forall (λ a, (lo <= score a)%Q ∧ (score a <= hi)%Q) l →
  (lo <= mean_score l)%Q ∧ (mean_score l <= hi)%Q.
Proof.
  intros Hne Hall. destruct (sum_scores_bounds lo hi l Hall) as [Hlo Hhi].
  assert (0 < inject_Z (Z.of_nat (length l)))%Q as Hn.
  { destruct l as [|a l]; [done|].
    rewrite inject_length_cons.
    assert (0 <= inject_Z (Z.of_nat (length l)))%Q
      by (change 0%Q with (inject_Z 0); rewrite <- Zle_Qle; lia).
    lra. }
  unfold mean_score. split.
  - by apply Qle_shift_div_l.
  - by apply Qle_shift_div_r.
Qed.

(** X19. If the scorer only returns probabilities between 0 and 1, every
    fetched article has a score between -1 and 1, and so have the overall
    mean shown in the report and the mean of every ticker's list. *)
Theorem report_mean_in_range (m : Monitor) (scorer : Scorer)
    (rss_feeds : list (string * result feed)) :
  (∀ text p n, scorer text = Ok (p, n) →
     (0 <= p)%Q ∧ (p <= 1)%Q ∧ (0 <= n)%Q ∧ (n <= 1)%Q) →
  let fetched := fetch_and_analyse_articles m scorer rss_feeds in
  let r := generate_html_report m fetched.1 fetched.2 in
  Forall (λ a, (-1 <= score a)%Q ∧ (score a <= 1)%Q) fetched.1 ∧
  ((-1 <= avg_score r)%Q ∧ (avg_score r <= 1)%Q) ∧
  (∀ t articles, fetched.2 !! t = Some articles →
     (-1 <= mean_score articles)%Q ∧ (mean_score articles <= 1)%Q).
Proof.
  intros Hs fetched r.
  assert (Forall (λ a, (-1 <= score a)%Q ∧ (score a <= 1)%Q) fetched.1) as Hall.
  { apply fetch_Forall. intros src e label sc Ha. simpl.
    unfold analyse_sentiment in Ha.
    destruct (scorer _) as [[p n]|x] eqn:Hsc; simpl in Ha;
      injection Ha as <- <-.
    - destruct (Hs _ _ _ Hsc) as (? & ? & ? & ?). split; lra.
    - split; lra. }
  split; [done|]. split.
  - subst r. destruct (fetched.1) as [|a l] eqn:Hf.
    + simpl. split; lra.
    + destruct (generate_html_report_nonempty m a l fetched.2) as (-> & _).
      by apply mean_score_bounds.
  - intros t articles Ht.
    pose proof (fetch_per_ticker_is_filter m scorer rss_feeds t) as Hf.
    cbv zeta in Hf. fold fetched in Hf. rewrite Ht in Hf. simpl in Hf.
    destruct articles as [|a l]; [vm_compute; split; discriminate|].
    apply mean_score_bounds; [done|]. rewrite Hf.
    apply Forall_forall. intros x Hx.
    apply list_elem_of_filter in Hx as [_ Hx].
    rewrite Forall_forall in Hall. by apply Hall.
Qed.

Lemma report_mean_in_range_witness :
  let fetched := fetch_and_analyse_articles Scenario.monitor Scenario.scorer
                   Scenario.two_articles in
  let r := generate_html_report Scenario.monitor fetched.1 fetched.2 in
  (-1 <= avg_score r)%Q ∧ (avg_score r <= 1)%Q.
Proof.
  intros fetched r.
  destruct (report_mean_in_range Scenario.monitor Scenario.scorer
              Scenario.two_articles) as (_ & H & _).
  - intros text p n. unfold Scenario.scorer.
    destruct (Str.contains "Apple" text); [|destruct (Str.contains "Tesla" text)];
      intros [= <- <-] || intros [=]; repeat split; lra.
  - exact H.
Defined.

(** ** The headlines *)

Lemma sorted_desc_of_sorted {A : Type} (key : A → Q) (l : list A) :
  StronglySorted (desc key) l → sorted_desc key l = l.
Proof.
  induction 1 as [|x l Hs IH Hall]; simpl; [done|].
  rewrite IH. destruct Hall as [|y l' Hy _]; simpl; [done|].
  unfold desc in Hy. by rewrite (proj2 (Qltb_ge _ _) Hy).
Qed.

(** X20. Sorting is idempotent, and so is taking the top five: articles that
    are already in descending order of absolute score are left as they
    are. *)
Theorem top_articles_idempotent (articles : list article) :
  sorted_desc abs_score (sorted_desc abs_score articles)
  = sorted_desc abs_score articles ∧
  top_articles (top_articles articles) = top_articles articles.
Proof.
  split.
  - apply sorted_desc_of_sorted, sorted_desc_sorted.
  - unfold top_articles at 1. rewrite sorted_desc_of_sorted.
    + unfold top_articles. rewrite take_take. f_equal.
    + unfold top_articles.
      apply (StronglySorted_app_1_l _ _ (drop 5 (sorted_desc abs_score articles))).
      rewrite take_drop. apply sorted_desc_sorted.
Qed.

(** X21. No article that is left out of the headlines has a larger absolute
    score than one that is shown. *)
Theorem headlines_outrank_rest (articles : list article) (a b : article) :
  a ∈ top_articles articles →
  b ∈ drop 5 (sorted_desc abs_score articles) →
  (Qabs (score b) <= Qabs (score a))%Q.
Proof.
  intros Ha Hb.
  pose proof (sorted_desc_sorted abs_score articles) as Hs.
  rewrite <- (take_drop 5 (sorted_desc abs_score articles)) in Hs.
  exact (StronglySorted_app_1_elem_of _ _ _ _ _ Hs Ha Hb).
Qed.

Lemma headlines_outrank_rest_witness :
  let art t s := {| title := t; link := ""; published := ""; summary := "";
                    source := ""; sentiment := ""; score := s; tickers := [] |} in
  (Qabs 0.1 <= Qabs (-0.2))%Q.
Proof.
  intros art.
  apply (headlines_outrank_rest
           [art "a" 0.2; art "b" (-0.5); art "c" 0.5; art "d" (-0.2);
            art "e" 0.1; art "f" 0.5]%Q
           (art "d" (-0.2)%Q) (art "e" 0.1%Q)).
  - vm_compute. do 4 apply list_elem_of_further. apply list_elem_of_here.
  - vm_compute. apply list_elem_of_here.
Defined.

(** ** The scan *)

(** X22. The scan always ends normally: neither a feed that cannot be
    parsed, nor a scorer that raises, nor a failing SMTP conversation makes
    it raise. It renders the report of what was fetched, and the mail counts
    as sent exactly when the SMTP conversation did not raise. *)
Theorem run_daily_scan_completes (m : Monitor) (scorer : Scorer)
    (rss_feeds : list (string * result feed)) (smtp : result unit) :
  let fetched := fetch_and_analyse_articles m scorer rss_feeds in
  run_daily_scan m scorer rss_feeds smtp
  = Ok (generate_html_report m fetched.1 fetched.2,
        match smtp with Ok _ => true | Raise _ => false end).
Proof.
  intros fetched. unfold run_daily_scan. fold fetched.
  destruct fetched as [arts ta]. by destruct smtp.
Qed.

(** ** The watch-list from the environment *)

Lemma split_on_length (sep : ascii) (s : string) :
  length (split_on sep s)
  = S (length (filter (λ c, c = sep) (list_ascii_of_string s))).
Proof.
  induction s as [|c s IH]; [done|].
  cbn [split_on list_ascii_of_string]. rewrite filter_cons.
  destruct (Ascii.eqb c sep) eqn:Hc.
  - apply Ascii.eqb_eq in Hc. rewrite decide_True by done.
    simpl. by rewrite IH.
  - apply Ascii.eqb_neq in Hc. rewrite decide_False by done.
    destruct (split_on sep s) as [|piece pieces]; [done|].
    by rewrite <- IH.
Qed.

Lemma contains_empty (s : string) : Str.contains "" s = true.
Proof. by destruct s. Qed.

(** X23. The watch-list has one ticker more than [WATCH_TICKERS] has commas,
    so it is never empty: pieces between commas are kept also when they are
    empty or blank. *)
Theorem watch_list_size (WATCH_TICKERS : option string) (file : mappings_file) :
  length (watch_tickers (init (watch_tickers_of_env WATCH_TICKERS) file))
  = S (length (filter (λ c, c = ","%char)
                 (list_ascii_of_string (default "" WATCH_TICKERS)))).
Proof.
  simpl. unfold watch_tickers_of_env. by rewrite !length_fmap, split_on_length.
Qed.

(** X24. When [WATCH_TICKERS] is not set or empty, the watch-list is the one
    ticker with the empty symbol, and unless the mappings file has an entry
    for the empty symbol, that ticker is reported for every text. *)
Theorem unset_watch_list_matches_all (WATCH_TICKERS : option string)
    (file : mappings_file) (text : string) :
  WATCH_TICKERS = None ∨ WATCH_TICKERS = Some "" →
  (∀ data, file = Loaded data → data !! "" = None) →
  let m := init (watch_tickers_of_env WATCH_TICKERS) file in
  watch_tickers m = [""] ∧ "" ∈ extract_tickers m text.
Proof.
  intros Hw Hfile m.
  assert (watch_tickers_of_env WATCH_TICKERS = [""]) as Hwl
    by (destruct Hw as [->| ->]; reflexivity).
  subst m. rewrite Hwl. split; [done|].
  apply elem_of_extract_tickers. split; [apply list_elem_of_here|].
  pose proof (lookup_ticker_to_names [""] file "") as Hl.
  rewrite decide_True in Hl by apply list_elem_of_here.
  destruct file as [|e|data]; simpl in Hl.
  - apply (mentioned_aliases _ _ _ [""]); [done|].
    exists "". split; [apply list_elem_of_here|].
    split; [apply contains_empty | done].
  - apply (mentioned_aliases _ _ _ [""]); [done|].
    exists "". split; [apply list_elem_of_here|].
    split; [apply contains_empty | done].
  - rewrite map_lookup_imap, (Hfile data eq_refl) in Hl.
    apply mentioned_fallback; [done|]. apply contains_empty.
Qed.

Lemma unset_watch_list_matches_all_witness :
  "" ∈ extract_tickers (init (watch_tickers_of_env None) FileNotFoundError)
         "Fed holds rates".
Proof.
  destruct (unset_watch_list_matches_all None FileNotFoundError "Fed holds rates")
    as [_ H].
  - by left.
  - intros data [=].
  - exact H.
Defined.

(** ** Substring hits anywhere *)

Lemma lower_app (a b : string) : Str.lower (a +:+ b) = Str.lower a +:+ Str.lower b.
Proof.
  unfold Str.lower. induction a as [|c a IH]; simpl; [done|]. by rewrite IH.
Qed.

Lemma upper_app (a b : string) : Str.upper (a +:+ b) = Str.upper a +:+ Str.upper b.
Proof.
  unfold Str.upper. induction a as [|c a IH]; simpl; [done|]. by rewrite IH.
Qed.

Lemma prefix_app_r (n s b : string) :
  String.prefix n s = true → String.prefix n (s +:+ b) = true.
Proof.
  revert s. induction n as [|c n IH]; intros s H; [by destruct (s +:+ b)|].
  destruct s as [|d s]; [discriminate H|].
  change (String.prefix (String c n) (String d s))
    with (if ascii_dec c d then String.prefix n s else false) in H.
  change (String.prefix (String c n) (String d s +:+ b))
    with (if ascii_dec c d then String.prefix n (s +:+ b) else false).
  destruct (ascii_dec c d); [by apply IH | done].
Qed.

Lemma contains_app_r (n s b : string) :
  Str.contains n s = true → Str.contains n (s +:+ b) = true.
Proof.
  induction s as [|d s IH]; intros H.
  - rewrite StrFacts.contains_unfold in H.
    destruct (String.prefix n "") eqn:Hp; [|done].
    rewrite StrFacts.contains_unfold.
    by rewrite (prefix_app_r n "" b Hp).
  - rewrite StrFacts.contains_unfold in H.
    rewrite StrFacts.contains_unfold.
    destruct (String.prefix n (String d s)) eqn:Hp.
    + by rewrite (prefix_app_r _ _ b Hp).
    + change (String d s +:+ b) with (String d (s +:+ b)).
      destruct (String.prefix n (String d (s +:+ b))); [done|].
      by apply IH.
Qed.

Lemma contains_app_l (n a s : string) :
  Str.contains n s = true → Str.contains n (a +:+ s) = true.
Proof.
  intros H. induction a as [|c a IH]; [done|].
  rewrite StrFacts.contains_unfold.
  change (String c a +:+ s) with (String c (a +:+ s)).
  by destruct (String.prefix n (String c (a +:+ s))).
Qed.

(** X25. A hit is a hit anywhere: for a ticker without exclusion rule, a
    text in which it is found still yields it when more text is put before
    and behind, also when that joins the hit to a longer word (all three
    texts of ASCII characters). *)
Theorem extract_tickers_substring_anywhere (m : Monitor)
    (text before after ticker : string) :
  Forall (λ c, (N_of_ascii c < 128)%N) (list_ascii_of_string before) →
  Forall (λ c, (N_of_ascii c < 128)%N) (list_ascii_of_string text) →
  Forall (λ c, (N_of_ascii c < 128)%N) (list_ascii_of_string after) →
  false_positive_filters !! ticker = None →
  ticker ∈ extract_tickers m text →
  ticker ∈ extract_tickers m (before +:+ text +:+ after).
Proof.
  intros _ _ _ Hf. rewrite !elem_of_extract_tickers. intros [Hw Hm].
  split; [done|].
  destruct (ticker_to_names m !! ticker) as [names|] eqn:Hn.
  - destruct (proj1 (mentioned_aliases m text ticker names Hn) Hm)
      as (name & Hin & Hc & _).
    apply (proj2 (mentioned_aliases m _ ticker names Hn)).
    exists name. split; [done|]. split.
    + rewrite !lower_app. by apply contains_app_l, contains_app_r.
    + unfold _validate_mention. by rewrite Hf.
  - pose proof (proj1 (mentioned_fallback m text ticker Hn) Hm) as Hc.
    apply (proj2 (mentioned_fallback m _ ticker Hn)).
    rewrite !upper_app. by apply contains_app_l, contains_app_r.
Qed.

Lemma extract_tickers_substring_anywhere_witness :
  "TSLA" ∈ extract_tickers Scenario.bare_monitor "xtslay".
Proof.
  apply (extract_tickers_substring_anywhere Scenario.bare_monitor "tsla" "x" "y").
  - apply (bool_decide_unpack _). vm_compute. reflexivity.
  - apply (bool_decide_unpack _). vm_compute. reflexivity.
  - apply (bool_decide_unpack _). vm_compute. reflexivity.
  - vm_compute. reflexivity.
  - apply (bool_decide_unpack _). vm_compute. reflexivity.
Defined.
